(** * Ceiling-sculpture controller: the Raspberry Pi side

    A shallow embedding of [raspberry-pi/controller.py]: the framed
    serial channel, the handshake with each Arduino, the validation of
    the reported array and motor numbers, the command strings built from
    the two CSV grids or for a reset, and the dispatch of one worker per
    command segment.

    Conventions of the embedding.
    - A Python [str] is a [list ascii]; [lit "..."] writes a literal.
    - A Python [int] is a [Z].
    - A CSV grid is a [list (list Z)]: each cell holds the value [int(cell)]
      of the text cell (after [lint_csv_file] every cell converts).
    - An exception is a [None] or a dedicated constructor of the result.
    - The bytes a serial port delivers are a [list byte]; reading past the
      end of that list is a read that blocks for ever. *)

From Stdlib Require Import ZArith List Ascii String DecimalString DecimalPos Lia.
From Stdlib Require Import Strings.Byte.
From stdpp Require Import base option list gmap.

Local Open Scope Z_scope.

(** ** Python strings *)

Abbreviation pystr := (list ascii).

Definition lit (s : string) : pystr := list_ascii_of_string s.
Arguments lit s%_string.

(** [ord(c)] *)
Definition ord (c : ascii) : Z := Z.of_N (N_of_ascii c).

(** [str(n)] for an integer: decimal digits, a leading minus sign when
    negative. *)
Definition str (n : Z) : pystr :=
  list_ascii_of_string (NilZero.string_of_int (Z.to_int n)).

(** [s[:-1]] *)
Fixpoint drop_last (s : pystr) : pystr :=
  match s with
  | [] => []
  | [_] => []
  | c :: s' => c :: drop_last s'
  end.

(** [s.split(sep)] for a one-character separator: every occurrence
    splits, empty pieces are kept, and the empty string gives [[""]]. *)
Fixpoint split (sep : ascii) (s : pystr) : list pystr :=
  match s with
  | [] => [[]]
  | c :: s' =>
      if Ascii.eqb c sep then [] :: split sep s'
      else match split sep s' with
           | [] => [[c]]
           | w :: ws => (c :: w) :: ws
           end
  end.

(** [sep.join(pieces)]; Python has it, the controller builds the same text
    by appending separators and cutting the last one. *)
Fixpoint join (sep : pystr) (pieces : list pystr) : pystr :=
  match pieces with
  | [] => []
  | [p] => p
  | p :: ps => p ++ sep ++ join sep ps
  end.

(** [l[i]] for a Python list and an int: a negative index counts from the
    end, an index out of range raises IndexError ([None]). *)
Definition py_index {A} (l : list A) (i : Z) : option A :=
  if i <? 0 then
    if - i <=? Z.of_nat (length l) then l !! Z.to_nat (Z.of_nat (length l) + i)
    else None
  else l !! Z.to_nat i.

(** ** Global variables *)

Definition START_MARKER : Z := 60.
Definition END_MARKER : Z := 62.
Definition MAX_TURNS : Z := 10.
Definition MAX_NUMBER_OF_ARRAYS : Z := 4.
Definition MAX_NUMBER_OF_MOTORS : Z := 10.

(** ** The table of serial ports

    A row of [serial_ports] starts as the address found by [find_arduinos],
    becomes [[address, serial object]] in [open_ports] and
    [[address, serial object, array number, number of motors]] in
    [connect_to_arrays].  Slot 1 holds the pyserial object, or, after
    [close_connections], the bound method [close] of that object. *)

Inductive slot :=
  | SerialObject (handle : nat)
  | BoundClose (handle : nat).

Record device := Device {
  address : pystr;
  serial : slot;
  array_number : Z;
  motor_number : Z
}.

Inductive port_row :=
  | Address (a : pystr)
  | Opened (a : pystr) (s : slot)
  | Connected (d : device).

Abbreviation grid := (list (list Z)).

(** ** commands_from_csv *)

(** The inner loop, [for count_column, _ in enumerate(desired_row)]. *)
Fixpoint csv_columns (motors : Z) (current_row : list Z) (count_column : nat)
    (desired_row : list Z) (command_string : pystr) : option pystr :=
  match desired_row with
  | [] => Some command_string
  | desired_cell :: rest =>
      if Z.of_nat count_column <? motors then
        match current_row !! count_column with
        | None => None
        | Some current_cell =>
            let difference := current_cell - desired_cell in
            let command_string :=
              if difference <? 0 then command_string ++ lit "Down,"
              else if difference >? 0 then command_string ++ lit "Up,"
              else command_string ++ lit "None," in
            let command_string :=
              command_string ++ str (Z.abs difference) ++ lit "," in
            csv_columns motors current_row (S count_column) rest command_string
        end
      else csv_columns motors current_row (S count_column) rest command_string
  end.

(** The outer loop, [for count_row, _ in enumerate(serial_ports)]. *)
Fixpoint csv_rows (desired_state_list current_state_list : grid)
    (serial_ports : list device) (command_string : pystr) : option pystr :=
  match serial_ports with
  | [] => Some command_string
  | d :: rest =>
      let command_string := command_string ++ lit "<" in
      desired_row ← py_index desired_state_list (array_number d);
      current_row ← py_index current_state_list (array_number d);
      command_string ←
        csv_columns (motor_number d) current_row 0 desired_row command_string;
      let command_string := drop_last command_string in
      let command_string := command_string ++ lit ">;" in
      csv_rows desired_state_list current_state_list rest command_string
  end.

(** The command string handed to [execute_commands]. *)
Definition csv_command_string (desired_state_list current_state_list : grid)
    (serial_ports : list device) : option pystr :=
  command_string ← csv_rows desired_state_list current_state_list serial_ports [];
  Some (drop_last command_string).

(** ** commands_from_reset *)

(** [[["0" for x in range(MAX_NUMBER_OF_ARRAYS)]
      for y in range(MAX_NUMBER_OF_MOTORS)]] *)
Definition current_state_list_zero : grid :=
  replicate (Z.to_nat MAX_NUMBER_OF_MOTORS)
    (replicate (Z.to_nat MAX_NUMBER_OF_ARRAYS) 0).

(** [for _ in range(n): command_string += "Up,100,"] *)
Fixpoint reset_columns (n : nat) (command_string : pystr) : pystr :=
  match n with
  | O => command_string
  | S n' => reset_columns n' (command_string ++ lit "Up,100,")
  end.

Fixpoint reset_rows (serial_ports : list device) (command_string : pystr)
    : pystr :=
  match serial_ports with
  | [] => command_string
  | d :: rest =>
      let command_string := command_string ++ lit "<" in
      let command_string :=
        reset_columns (Z.to_nat (motor_number d)) command_string in
      let command_string := drop_last command_string in
      let command_string := command_string ++ lit ">;" in
      reset_rows rest command_string
  end.

Definition reset_command_string (serial_ports : list device) : pystr :=
  drop_last (reset_rows serial_ports []).

(** ** execute_commands

    [threads = [None] * len(serial_ports)], then one thread is created,
    stored in [threads[count]] and started for every piece of the command
    string.  The store raises IndexError when [count] is not below the
    number of serial ports: the thread of that piece is never started and
    the ones started before are not joined. *)

Record worker := Worker {
  worker_port : nat;       (* the [port] argument of [move_arrays] *)
  worker_text : pystr      (* the piece of the command string it sends *)
}.

Inductive execute_result :=
  | Joined (started : list worker)
  | ThreadIndexError (started : list worker).

Fixpoint create_threads (slots : nat) (count : nat) (parse_text : list pystr)
    (started : list worker) : execute_result :=
  match parse_text with
  | [] => Joined started
  | text :: rest =>
      if (count <? slots)%nat then
        create_threads slots (S count) rest (started ++ [Worker count text])
      else ThreadIndexError started
  end.

Definition execute_commands (serial_ports : list device)
    (command_string_execute : pystr) : execute_result :=
  let parse_text := split ";" command_string_execute in
  create_threads (length serial_ports) 0 parse_text [].

Definition started_workers (r : execute_result) : list worker :=
  match r with
  | Joined ws => ws
  | ThreadIndexError ws => ws
  end.

(** ** recieve_from_arduino

    [serial_ports[port][1].read()] takes one byte from the port and blocks
    while there is none; [.decode("utf-8")] of that single byte gives the
    character of the same code for a byte below 128 and raises
    UnicodeDecodeError for any other byte. *)

#[global] Instance byte_eq_decision : EqDecision byte := Byte.byte_eq_dec.

(** The bytes [.decode("utf-8")] accepts one at a time. *)
Definition ascii_byte (b : byte) : Prop := (Byte.to_N b < 128)%N.

Definition decode (b : byte) : option ascii :=
  if (Byte.to_N b <? 128)%N then Some (ascii_of_byte b) else None.

Inductive recieve_result :=
  | Recieved (recieve_string : pystr) (rest : list byte)
  | UnicodeDecodeError
  | BlockedRead.

(** The second loop, entered with the character read last:
    [while ord(recieve_char) != END_MARKER]. *)
Fixpoint save_data (stream : list byte) (recieve_char : ascii)
    (recieve_string : pystr) : recieve_result :=
  if ord recieve_char =? END_MARKER then Recieved recieve_string stream
  else
    let recieve_string :=
      if ord recieve_char =? START_MARKER then recieve_string
      else recieve_string ++ [recieve_char] in
    match stream with
    | [] => BlockedRead
    | b :: rest =>
        match decode b with
        | None => UnicodeDecodeError
        | Some c => save_data rest c recieve_string
        end
    end.

(** The first read and the first loop:
    [while ord(recieve_char) != START_MARKER]. *)
Fixpoint recieve_from_arduino (stream : list byte) : recieve_result :=
  match stream with
  | [] => BlockedRead
  | b :: rest =>
      match decode b with
      | None => UnicodeDecodeError
      | Some c =>
          if ord c =? START_MARKER then save_data rest c []
          else recieve_from_arduino rest
      end
  end.

(** ** wait_for_arduino_connection_execute *)

Fixpoint startswith (s sub : pystr) : bool :=
  match sub, s with
  | [], _ => true
  | _ :: _, [] => false
  | a :: sub', c :: s' => Ascii.eqb a c && startswith s' sub'
  end.

(** [s.find(sub)], counting from position [i]. *)
Fixpoint find_from (i : Z) (s sub : pystr) : Z :=
  if startswith s sub then i
  else match s with
       | [] => -1
       | _ :: s' => find_from (i + 1) s' sub
       end.

Definition find (s sub : pystr) : Z := find_from 0 s sub.

(** The characters [str.split()] treats as white space, among those a
    decoded byte can be. *)
Definition isspace (c : ascii) : bool :=
  let n := ord c in
  ((9 <=? n) && (n <=? 13)) || ((28 <=? n) && (n <=? 32)).

Definition isdigit_char (c : ascii) : bool :=
  let n := ord c in (48 <=? n) && (n <=? 57).

(** The maximal runs of characters satisfying [keep], in order; [cur] is
    the run being read, backwards. *)
Fixpoint runs_go (keep : ascii -> bool) (cur : pystr) (s : pystr)
    : list pystr :=
  match s with
  | [] => match cur with [] => [] | _ => [rev cur] end
  | c :: s' =>
      if keep c then runs_go keep (c :: cur) s'
      else match cur with
           | [] => runs_go keep [] s'
           | _ => rev cur :: runs_go keep [] s'
           end
  end.

Definition runs (keep : ascii -> bool) (s : pystr) : list pystr :=
  runs_go keep [] s.

(** [s.split()]: the pieces between runs of white space, none empty. *)
Definition split_whitespace (s : pystr) : list pystr :=
  runs (fun c => negb (isspace c)) s.

(** [s.isdigit()] *)
Definition isdigit (s : pystr) : bool :=
  match s with
  | [] => false
  | _ => forallb isdigit_char s
  end.

(** [int(s)] for a string of decimal digits (the only strings the
    controller converts here, having tested [isdigit] first). *)
Definition int (s : pystr) : Z :=
  fold_left (fun n c => 10 * n + (ord c - 48)) s 0.

(** [[int(i) for i in msg.split() if i.isdigit()]] *)
Definition array_info_of (msg : pystr) : list Z :=
  map int (filter (fun i => isdigit i = true) (split_whitespace msg)).

Inductive execute_outcome :=
  | ArrayInfo (array_info : list Z)
  | TimeoutError
  | DecodeFailure.

(** [while msg.find("Arduino is ready") == -1: msg = recieve_from_arduino()].
    A read that blocks never returns, and the 10 second timeout of the
    decorator ends the call; every frame read consumes bytes, so the
    length of the stream bounds the number of turns. *)
Fixpoint handshake_loop (fuel : nat) (stream : list byte) : execute_outcome :=
  match fuel with
  | O => TimeoutError
  | S fuel' =>
      match recieve_from_arduino stream with
      | BlockedRead => TimeoutError
      | UnicodeDecodeError => DecodeFailure
      | Recieved msg rest =>
          if find msg (lit "Arduino is ready") =? -1
          then handshake_loop fuel' rest
          else ArrayInfo (array_info_of msg)
      end
  end.

Definition wait_for_arduino_connection_execute (stream : list byte)
    : execute_outcome :=
  handshake_loop (S (length stream)) stream.

(** ** wait_for_arduino_connection

    What the thread writes on the spinner and stores in [results[port]]:
    the error flag and the row.  A UnicodeDecodeError is caught by
    neither handler: the thread dies and [results[port]] stays [None]. *)

Inductive connection_report :=
  | READY                     (* "READY" *)
  | FAILED_TIMEOUT            (* "FAILED: WAITING FOR MESSAGE TIMEOUT" *)
  | FAILED_NEGATIVE_NUMBER.   (* "FAILED: NEGATIVE ARRAY NUMBER OR MOTOR
                                  NUMBER PASSED" *)

Definition wait_for_arduino_connection (a : pystr) (s : slot)
    (stream : list byte) : option (bool * connection_report * port_row) :=
  match wait_for_arduino_connection_execute stream with
  | ArrayInfo array_info =>
      match array_info !! 0%nat, array_info !! 1%nat with
      | Some n0, Some n1 => Some (false, READY, Connected (Device a s n0 n1))
      | _, _ => Some (true, FAILED_NEGATIVE_NUMBER, Opened a s)
      end
  | TimeoutError => Some (true, FAILED_TIMEOUT, Opened a s)
  | DecodeFailure => None
  end.

(** ** lint_serial_port_values *)

Inductive lint_failure :=
  | DUPLICATES           (* "Array Numbers FAILED: DUPLICATES" *)
  | ARRAY_OUT_OF_RANGE   (* "Array Numbers FAILED: OUT OF RANGE OR TOO MANY
                             ARRAYS CONNECTED" *)
  | MOTOR_OUT_OF_RANGE.  (* "Motor Numbers FAILED: OUT OF RANGE" *)

Inductive lint_result :=
  | Linted
  | LintError (f : lint_failure).

Definition lint_serial_port_values (serial_ports : list device) : lint_result :=
  let list_array_numbers := map array_number serial_ports in
  let list_motor_numbers := map motor_number serial_ports in
  if negb (length list_array_numbers
           =? size (list_to_set list_array_numbers : gset Z))%nat
  then LintError DUPLICATES
  else if existsb (fun value => (value >=? MAX_NUMBER_OF_ARRAYS) || (value <? 0))
            list_array_numbers
  then LintError ARRAY_OUT_OF_RANGE
  else if existsb (fun value => (value >? MAX_NUMBER_OF_MOTORS) || (value <? 1))
            list_motor_numbers
  then LintError MOTOR_OUT_OF_RANGE
  else Linted.

(** ** What the two command modes do, in order *)

Inductive event :=
  | WroteCurrentState (rows : grid)     (* [writerows] on the current state *)
  | Printed (command_string : pystr)    (* [print(command_string)] *)
  | Executed (r : execute_result)       (* [execute_commands] *)
  | CopiedDesiredToCurrent.             (* [shutil.copy2] *)

Definition commands_from_csv (desired_state_list current_state_list : grid)
    (serial_ports : list device) : option (list event) :=
  command_string ←
    csv_command_string desired_state_list current_state_list serial_ports;
  match execute_commands serial_ports command_string with
  | Joined ws =>
      Some [Printed command_string; Executed (Joined ws); CopiedDesiredToCurrent]
  | ThreadIndexError ws =>
      Some [Printed command_string; Executed (ThreadIndexError ws)]
  end.

Definition commands_from_reset (serial_ports : list device) : list event :=
  let command_string := reset_command_string serial_ports in
  [WroteCurrentState current_state_list_zero;
   Printed command_string;
   Executed (execute_commands serial_ports command_string)].

(** ** Opening, connecting and closing

    The serial objects live outside the table: [open_handles] is the set
    of those that are open.  [serial.Serial(address, BAUD_RATE)] opens a
    new one or raises SerialException. *)

Record system := System {
  serial_ports : list port_row;
  open_handles : gset nat;
  next_handle : nat
}.

(** [open_ports]: the rows opened so far, the addresses not reached when
    an open failed (none when all succeeded), the open serial objects. *)
Fixpoint open_ports (openable : pystr -> bool) (addresses : list pystr)
    (handles : gset nat) (next : nat)
    : list (pystr * slot) * list pystr * gset nat * nat :=
  match addresses with
  | [] => ([], [], handles, next)
  | a :: rest =>
      if openable a then
        let '(opened, unreached, handles', next') :=
          open_ports openable rest ({[next]} ∪ handles) (S next) in
        ((a, SerialObject next) :: opened, unreached, handles', next')
      else ([], a :: rest, handles, next)
  end.

(** The threads of [connect_to_arrays], one per port, each on the bytes
    its port delivers. *)
Fixpoint connection_threads (streams : nat -> list byte) (count : nat)
    (opened : list (pystr * slot))
    : list (option (bool * connection_report * port_row)) :=
  match opened with
  | [] => []
  | (a, s) :: rest =>
      wait_for_arduino_connection a s (streams count)
      :: connection_threads streams (S count) rest
  end.

Inductive attempt_outcome :=
  | Ready (devices : list device)
  | Retry          (* [Error] caught by [main]; the loop starts again *)
  | Crashed.       (* an exception [main] does not catch *)

(** [for count_row, row in enumerate(results)]: the first row with the
    error flag raises [Error]; a row a dead thread left as [None] raises
    TypeError. *)
Fixpoint collect_results
    (results : list (option (bool * connection_report * port_row)))
    : attempt_outcome :=
  match results with
  | [] => Ready []
  | None :: _ => Crashed
  | Some (true, _, _) :: _ => Retry
  | Some (false, _, Connected d) :: rest =>
      match collect_results rest with
      | Ready ds => Ready (d :: ds)
      | other => other
      end
  | Some (false, _, _) :: _ => Crashed
  end.

(** The row a thread leaves in [serial_ports[port]]. *)
Definition row_after_thread (before : pystr * slot)
    (result : option (bool * connection_report * port_row)) : port_row :=
  match result with
  | Some (_, _, row) => row
  | None => Opened (fst before) (snd before)
  end.

Inductive close_report :=
  | CLOSED     (* "CLOSED" *)
  | FAILED.    (* "FAILED" *)

(** One turn of the loop of [close_connections]:
    [serial_ports[count][1] = serial_ports[count][1].close] stores the
    bound method, it does not call it.  A row that is still an address
    gives a character at [[1]], which has no [close]; so has a bound
    method.  AttributeError is caught; an address shorter than two
    characters raises IndexError, which is not. *)
Definition close_connection (row : port_row) : option (port_row * close_report) :=
  match row with
  | Address a =>
      if (2 <=? length a)%nat then Some (row, FAILED) else None
  | Opened a (SerialObject h) => Some (Opened a (BoundClose h), CLOSED)
  | Opened a (BoundClose h) => Some (row, FAILED)
  | Connected (Device a (SerialObject h) n m) =>
      Some (Connected (Device a (BoundClose h) n m), CLOSED)
  | Connected (Device a (BoundClose h) n m) => Some (row, FAILED)
  end.

Fixpoint close_connections (rows : list port_row)
    : option (list port_row * list close_report) :=
  match rows with
  | [] => Some ([], [])
  | row :: rest =>
      '(row', report) ← close_connection row;
      '(rest', reports) ← close_connections rest;
      Some (row' :: rest', report :: reports)
  end.

(** The handler of [main]: [if len(serial_ports) != 0: close_connections]. *)
Definition on_error (rows : list port_row) (handles : gset nat) (next : nat)
    : attempt_outcome * system * list close_report :=
  match rows with
  | [] => (Retry, System rows handles next, [])
  | _ =>
      match close_connections rows with
      | Some (rows', reports) => (Retry, System rows' handles next, reports)
      | None => (Crashed, System rows handles next, [])
      end
  end.

(** What one turn of the first loop of [main] meets: the addresses [ls]
    lists ([None] when it fails), which of them can be opened, and the
    bytes every port delivers within the time allowed for the handshake. *)
Record environment := Environment {
  found : option (list pystr);
  openable : pystr -> bool;
  streams : nat -> list byte
}.

(** One turn of the first loop of [main], after the prompt. *)
Definition connect_attempt (env : environment) (st : system)
    : attempt_outcome * system * list close_report :=
  match found env with
  | None => on_error (serial_ports st) (open_handles st) (next_handle st)
  | Some addresses =>
      if (Z.of_nat (length addresses) >? MAX_NUMBER_OF_ARRAYS) then
        on_error (serial_ports st) (open_handles st) (next_handle st)
      else
        let '(opened, unreached, handles, next) :=
          open_ports (openable env) addresses (open_handles st) (next_handle st) in
        match unreached with
        | _ :: _ =>
            on_error (map (fun p => Opened (fst p) (snd p)) opened
                      ++ map Address unreached) handles next
        | [] =>
            let results := connection_threads (streams env) 0 opened in
            let rows := zip_with row_after_thread opened results in
            match collect_results results with
            | Crashed => (Crashed, System rows handles next, [])
            | Retry => on_error rows handles next
            | Ready devices =>
                match lint_serial_port_values devices with
                | Linted => (Ready devices, System rows handles next, [])
                | LintError _ => on_error rows handles next
                end
            end
        end
  end.

(** ** The wire format, as the specification words it

    One instruction is [Direction,Magnitude]; the instructions of a device
    are joined by commas between [<] and [>]; the devices of a batch are
    joined by [;]. *)

Inductive direction := Up | Down | DirNone.

Record instruction := Instruction {
  instr_direction : direction;
  magnitude : Z
}.

Definition direction_text (d : direction) : pystr :=
  match d with
  | Up => lit "Up"
  | Down => lit "Down"
  | DirNone => lit "None"
  end.

Definition instruction_text (i : instruction) : pystr :=
  direction_text (instr_direction i) ++ lit "," ++ str (magnitude i).

Definition frame_text (instructions : list instruction) : pystr :=
  lit "<" ++ join (lit ",") (map instruction_text instructions) ++ lit ">".

Definition batch_text (batch : list (list instruction)) : pystr :=
  join (lit ";") (map frame_text batch).

(** The instruction for one motor: the sign and the size of
    [current - desired]. *)
Definition instruction_of (current_cell desired_cell : Z) : instruction :=
  let delta := current_cell - desired_cell in
  Instruction
    (if delta <? 0 then Down else if 0 <? delta then Up else DirNone)
    (Z.abs delta).

(** The instructions of one device: one per motor it owns, from the first
    cells of its two rows. *)
Definition row_instructions (motors : Z) (current_row desired_row : list Z)
    : list instruction :=
  zip_with instruction_of
    (take (Z.to_nat motors) current_row) (take (Z.to_nat motors) desired_row).

Definition device_instructions (desired_state_list current_state_list : grid)
    (d : device) : list instruction :=
  match py_index current_state_list (array_number d),
        py_index desired_state_list (array_number d) with
  | Some current_row, Some desired_row =>
      row_instructions (motor_number d) current_row desired_row
  | _, _ => []
  end.

(** A connected device, as [lint_serial_port_values] lets it through: its
    array number is a row of the grids and its motors are columns. *)
Definition connected_device (d : device) : Prop :=
  0 <= array_number d < MAX_NUMBER_OF_ARRAYS ∧
  1 <= motor_number d <= MAX_NUMBER_OF_MOTORS.

(** The instructions of a reset for one device. *)
Definition reset_instructions (d : device) : list instruction :=
  replicate (Z.to_nat (motor_number d)) (Instruction Up 100).

(** The text the worker of the [i]-th device is handed in CSV mode, and
    in a reset. *)
Definition csv_worker_text (desired_state_list current_state_list : grid)
    (devices : list device) (i : nat) : option pystr :=
  command_string ←
    csv_command_string desired_state_list current_state_list devices;
  worker_text <$>
    started_workers (execute_commands devices command_string) !! i.

Definition reset_worker_text (devices : list device) (i : nat) : option pystr :=
  worker_text <$>
    started_workers
      (execute_commands devices (reset_command_string devices)) !! i.

(** The cell of a grid at a row and a column, when there is one. *)
Definition cell (g : grid) (row : Z) (column : nat) : option Z :=
  r ← py_index g row; r !! column.

(** A position grid: [MAX_NUMBER_OF_ARRAYS] rows of
    [MAX_NUMBER_OF_MOTORS] cells, the shape [lint_csv_file] writes. *)
Definition position_grid (g : grid) : Prop :=
  Z.of_nat (length g) = MAX_NUMBER_OF_ARRAYS ∧
  Forall (fun row => Z.of_nat (length row) = MAX_NUMBER_OF_MOTORS) g.

(** ** The scenario of the specification

    Array 0 wants 3 turns on its first motor and has 5; every other cell
    is 0; the device of array 0 owns two motors. *)

Definition scenario_desired : grid :=
  [ [3; 0; 0; 0; 0; 0; 0; 0; 0; 0];
    [0; 0; 0; 0; 0; 0; 0; 0; 0; 0];
    [0; 0; 0; 0; 0; 0; 0; 0; 0; 0];
    [0; 0; 0; 0; 0; 0; 0; 0; 0; 0] ].

Definition scenario_current : grid :=
  [ [5; 0; 0; 0; 0; 0; 0; 0; 0; 0];
    [0; 0; 0; 0; 0; 0; 0; 0; 0; 0];
    [0; 0; 0; 0; 0; 0; 0; 0; 0; 0];
    [0; 0; 0; 0; 0; 0; 0; 0; 0; 0] ].

Definition scenario_device : device :=
  Device (lit "/dev/ttyUSB0") (SerialObject 0) 0 2.

(** Two grids that differ from the scenario only outside the cells of the
    two motors of array 0. *)
Definition scenario_desired_elsewhere : grid :=
  [ [3; 0; 7; 0; 0; 0; 0; 0; 0; 1];
    [0; 4; 0; 0; 0; 0; 0; 0; 0; 0];
    [0; 0; 0; 0; 0; 9; 0; 0; 0; 0];
    [2; 0; 0; 0; 0; 0; 0; 0; 0; 0] ].

Definition scenario_current_elsewhere : grid :=
  [ [5; 0; 0; 6; 0; 0; 0; 0; 0; 0];
    [1; 0; 0; 0; 0; 0; 0; 0; 0; 0];
    [0; 0; 0; 0; 0; 0; 0; 0; 0; 0];
    [0; 0; 0; 0; 0; 0; 0; 0; 10; 0] ].

(** Two connected devices, and a text typed in manual mode that holds one
    frame only. *)
Definition two_devices : list device :=
  [ Device (lit "/dev/ttyUSB0") (SerialObject 0) 0 2;
    Device (lit "/dev/ttyUSB1") (SerialObject 1) 1 3 ].

Definition manual_one_frame : pystr := lit "<Up,1>".

(** ** The handshake reply, as the specification words it

    Every maximal run of decimal digits of the payload, in order of
    appearance, as an integer. *)
Definition maximal_digit_runs (msg : pystr) : list Z :=
  map int (runs isdigit_char msg).

(** A piece of the reply is a number or holds no digit at all. *)
Definition digits_or_none (piece : pystr) : Prop :=
  isdigit piece = true ∨ forallb (fun c => negb (isdigit_char c)) piece = true.

(** Two replies as they arrive on the port: the numbers stand alone in the
    first, the array number is glued to a word in the second. *)
Definition reply_spaced : list byte :=
  list_byte_of_string "<Arduino is ready 2 7>".

Definition reply_glued : pystr := lit "Arduino is ready array2 7".

(** ** Two connect attempts that fail

    One port whose Arduino sends nothing before the handshake times out;
    and two ports whose Arduinos both report array number 2. *)

Definition fresh_system : system := System [] ∅ 0.

Definition silent_environment : environment :=
  Environment (Some [lit "/dev/ttyUSB0"]) (fun _ => true) (fun _ => []).

Definition duplicate_environment : environment :=
  Environment (Some [lit "/dev/ttyUSB0"; lit "/dev/ttyUSB1"])
    (fun _ => true)
    (fun _ => list_byte_of_string "<Arduino is ready 2 3>").

(** ** lint_csv_file

    A CSV file is the table [csv.reader] reads: rows of text cells.
    [pyint] stands for Python's [int] on a text cell: the value, or [None]
    for ValueError.  It is a parameter of the functions that convert
    cells; its grammar (blanks, sign, underscores) is the interpreter's. *)

Abbreviation table := (list (list pystr)).

(** One turn of the two loops: the cell is kept when it converts to a
    number of turns in [1, MAX_TURNS]; IndexError and ValueError give
    ["0"], and so does any other cell. *)
Definition lint_cell (pyint : pystr -> option Z) (csv_filename_list : table)
    (count_row count_column : nat) : pystr :=
  match csv_filename_list !! count_row with
  | None => lit "0"
  | Some row =>
      match row !! count_column with
      | None => lit "0"
      | Some cell =>
          match pyint cell with
          | None => lit "0"
          | Some n =>
              if (n <=? MAX_TURNS) && (n >? 0)
                 && match cell with [] => false | _ => true end
              then cell
              else lit "0"
          end
      end
  end.

(** [csv_filename_list_linted], the table written back over the file. *)
Definition lint_csv_file (pyint : pystr -> option Z) (csv_filename_list : table)
    : table :=
  map (fun count_row =>
         map (fun count_column =>
                lint_cell pyint csv_filename_list count_row count_column)
             (seq 0 (Z.to_nat MAX_NUMBER_OF_MOTORS)))
      (seq 0 (Z.to_nat MAX_NUMBER_OF_ARRAYS)).

(** The values of the cells of a table, when every cell converts. *)
Definition table_values (pyint : pystr -> option Z) (t : table) : option grid :=
  mapM (mapM pyint) t.

(** ** commands_from_csv, on the text cells

    The loops of [commands_from_csv] with the conversions
    [int(current_row[count_column]) - int(desired_row[count_column])]
    done where the source does them. *)

Fixpoint csv_columns_cells (pyint : pystr -> option Z) (motors : Z)
    (current_row : list pystr) (count_column : nat)
    (desired_row : list pystr) (command_string : pystr) : option pystr :=
  match desired_row with
  | [] => Some command_string
  | desired_cell :: rest =>
      if Z.of_nat count_column <? motors then
        current_cell ← current_row !! count_column;
        current_value ← pyint current_cell;
        desired_value ← pyint desired_cell;
        let difference := current_value - desired_value in
        let command_string :=
          if difference <? 0 then command_string ++ lit "Down,"
          else if difference >? 0 then command_string ++ lit "Up,"
          else command_string ++ lit "None," in
        let command_string :=
          command_string ++ str (Z.abs difference) ++ lit "," in
        csv_columns_cells pyint motors current_row (S count_column) rest
          command_string
      else
        csv_columns_cells pyint motors current_row (S count_column) rest
          command_string
  end.

Fixpoint csv_rows_cells (pyint : pystr -> option Z)
    (desired_state_list current_state_list : table)
    (serial_ports : list device) (command_string : pystr) : option pystr :=
  match serial_ports with
  | [] => Some command_string
  | d :: rest =>
      let command_string := command_string ++ lit "<" in
      desired_row ← py_index desired_state_list (array_number d);
      current_row ← py_index current_state_list (array_number d);
      command_string ←
        csv_columns_cells pyint (motor_number d) current_row 0 desired_row
          command_string;
      let command_string := drop_last command_string in
      let command_string := command_string ++ lit ">;" in
      csv_rows_cells pyint desired_state_list current_state_list rest
        command_string
  end.

Definition csv_command_string_cells (pyint : pystr -> option Z)
    (desired_state_list current_state_list : table)
    (serial_ports : list device) : option pystr :=
  command_string ←
    csv_rows_cells pyint desired_state_list current_state_list serial_ports [];
  Some (drop_last command_string).

(** ** The two modes of the menu

    Modes 1 and 2 of [main] first lint both files, each rewritten in
    place.  Mode 1 then runs [commands_from_csv], which ends by copying
    the desired state over the current state; mode 2 runs
    [commands_from_reset], which starts by writing its table of zeros
    over the current state. *)

Record files := Files {
  desired_state : table;
  current_state : table
}.

(** [[["0" for x in range(MAX_NUMBER_OF_ARRAYS)]
      for y in range(MAX_NUMBER_OF_MOTORS)]], as text. *)
Definition current_state_list_zero_cells : table :=
  replicate (Z.to_nat MAX_NUMBER_OF_MOTORS)
    (replicate (Z.to_nat MAX_NUMBER_OF_ARRAYS) (lit "0")).

Inductive mode_outcome :=
  | Executed_all (ws : list worker)       (* every thread joined *)
  | Raised_index (ws : list worker)       (* IndexError in [execute_commands] *)
  | Raised_in_commands.                   (* IndexError or ValueError while the
                                             command string is built *)

Definition csv_mode (pyint : pystr -> option Z) (serial_ports : list device)
    (fs : files) : files * mode_outcome :=
  let desired := lint_csv_file pyint (desired_state fs) in
  let current := lint_csv_file pyint (current_state fs) in
  match csv_command_string_cells pyint desired current serial_ports with
  | None => (Files desired current, Raised_in_commands)
  | Some command_string =>
      match execute_commands serial_ports command_string with
      | Joined ws => (Files desired desired, Executed_all ws)
      | ThreadIndexError ws => (Files desired current, Raised_index ws)
      end
  end.

Definition reset_mode (pyint : pystr -> option Z) (serial_ports : list device)
    (fs : files) : files * mode_outcome :=
  let desired := lint_csv_file pyint (desired_state fs) in
  let written := Files desired current_state_list_zero_cells in
  match execute_commands serial_ports (reset_command_string serial_ports) with
  | Joined ws => (written, Executed_all ws)
  | ThreadIndexError ws => (written, Raised_index ws)
  end.

(** ** move_arrays

    [parce_string.encode()]: UTF-8, one byte for a character below 128 and
    two for the others a [pystr] can hold. *)

Definition byte_of_code (n : Z) : byte :=
  match Byte.of_N (Z.to_N n) with
  | Some b => b
  | None => x00
  end.

Definition encode_char (c : ascii) : list byte :=
  if ord c <? 128 then [byte_of_ascii c]
  else [byte_of_code (192 + ord c / 64); byte_of_code (128 + ord c mod 64)].

Definition encode (s : pystr) : list byte := concat (map encode_char s).

Inductive move_report :=
  | REPLIED (data_recieved : pystr)   (* "<- <- Array: port data" *)
  | EXECUTION_FAILED_TIMEOUT          (* the reply did not come in time *)
  | THREAD_DIED.                      (* UnicodeDecodeError, caught nowhere *)

(** The worker of one port: what it writes to the port, and what it
    reports once the bytes [incoming] have come back. *)
Definition move_arrays (parce_string : pystr) (incoming : list byte)
    : list byte * move_report :=
  (encode parce_string,
   match recieve_from_arduino incoming with
   | Recieved data_recieved _ => REPLIED data_recieved
   | BlockedRead => EXECUTION_FAILED_TIMEOUT
   | UnicodeDecodeError => THREAD_DIED
   end).

(** Two ports whose Arduinos report arrays 0 and 1 with 2 and 3 motors;
    and three ports of which the second cannot be opened. *)
Definition two_port_environment : environment :=
  Environment (Some [lit "/dev/ttyUSB0"; lit "/dev/ttyUSB1"])
    (fun _ => true)
    (fun port =>
       match port with
       | O => list_byte_of_string "<Arduino is ready 0 2>"
       | _ => list_byte_of_string "<Arduino is ready 1 3>"
       end).

Definition stuck_port_environment : environment :=
  Environment
    (Some [lit "/dev/ttyUSB0"; lit "/dev/ttyUSB1"; lit "/dev/ttyUSB2"])
    (fun a => negb (bool_decide (a = lit "/dev/ttyUSB1")))
    (fun _ => []).

(** A character that is one byte on the wire and is no marker. *)
Definition plain_char (c : ascii) : bool :=
  (ord c <? 128) && negb (ord c =? START_MARKER) && negb (ord c =? END_MARKER).

(** A [pyint] for the examples: the decimal numerals, nothing else. *)
Definition decimal_int (s : pystr) : option Z :=
  if isdigit s then Some (int s) else None.

Example str_0 : str 0 = lit "0". Proof. reflexivity. Qed.
Example str_100 : str 100 = lit "100". Proof. reflexivity. Qed.
Example split_empty : split ";" [] = [[]]. Proof. reflexivity. Qed.
Example split_two :
  split ";" (lit "<Up,1>;<Up,1>") = [lit "<Up,1>"; lit "<Up,1>"].
Proof. reflexivity. Qed.
Example array_info_ex :
  array_info_of (lit "Arduino is ready 2 7") = [2; 7].
Proof. reflexivity. Qed.
Example array_info_glued :
  array_info_of (lit "Arduino is ready a2 7") = [7].
Proof. reflexivity. Qed.
Example recieve_ex :
  recieve_from_arduino [x61; x3c; x62; x3c; x63; x3e; x64]
  = Recieved (lit "bc") [x64].
Proof. reflexivity. Qed.
Example lint_ex :
  lint_serial_port_values [Device [] (SerialObject 0) 2 3; Device [] (SerialObject 1) 2 3]
  = LintError DUPLICATES.
Proof. vm_compute. reflexivity. Qed.

(** * Properties *)

(** ** Strings *)

Lemma drop_last_snoc (s : pystr) (c : ascii) : drop_last (s ++ [c]) = s.
Proof.
  induction s as [|a s IH]; [done|].
  simpl. rewrite IH. by destruct s.
Qed.

Lemma drop_last_app_snoc (s t : pystr) (c : ascii) :
  drop_last (s ++ t ++ [c]) = s ++ t.
Proof. by rewrite app_assoc, drop_last_snoc. Qed.

Lemma concat_terminated (c : ascii) (pieces : list pystr) :
  pieces ≠ [] →
  concat (map (fun p => p ++ [c]) pieces) = join [c] pieces ++ [c].
Proof.
  induction pieces as [|p ps IH]; [done|]. intros _.
  destruct ps as [|q ps]; [simpl; by rewrite app_nil_r|].
  change (concat (map _ (p :: q :: ps)))
    with ((p ++ [c]) ++ concat (map (fun p => p ++ [c]) (q :: ps))).
  rewrite IH; [|done].
  change (join [c] (p :: q :: ps)) with (p ++ [c] ++ join [c] (q :: ps)).
  by rewrite <- !app_assoc.
Qed.

Lemma split_no_sep (c : ascii) (p : pystr) :
  c ∉ p → split c p = [p].
Proof.
  induction p as [|a p IH]; [done|]. intros Hn.
  apply not_elem_of_cons in Hn as [Hne Hn]. simpl.
  destruct (Ascii.eqb_spec a c) as [->|_]; [done|]. by rewrite IH.
Qed.

Lemma split_app_sep (c : ascii) (p rest : pystr) :
  c ∉ p → split c (p ++ c :: rest) = p :: split c rest.
Proof.
  induction p as [|a p IH]; intros Hn.
  - simpl. by rewrite Ascii.eqb_refl.
  - apply not_elem_of_cons in Hn as [Hne Hn]. simpl.
    destruct (Ascii.eqb_spec a c) as [->|_]; [done|]. by rewrite IH.
Qed.

Lemma split_join (c : ascii) (pieces : list pystr) :
  pieces ≠ [] → Forall (fun p => c ∉ p) pieces →
  split c (join [c] pieces) = pieces.
Proof.
  induction pieces as [|p ps IH]; [done|]. intros _ Hall.
  apply Forall_cons in Hall as [Hp Hps].
  destruct ps as [|q ps]; [by apply split_no_sep|].
  change (join [c] (p :: q :: ps)) with (p ++ c :: join [c] (q :: ps)).
  rewrite split_app_sep; [|done]. by rewrite IH.
Qed.

Lemma semicolon_not_in_uint (d : Decimal.uint) :
  ";"%char ∉ list_ascii_of_string (NilEmpty.string_of_uint d).
Proof.
  induction d; simpl;
    [apply not_elem_of_nil | apply not_elem_of_cons; split; [discriminate|done] ..].
Qed.

Lemma semicolon_not_in_str (n : Z) : ";"%char ∉ str n.
Proof.
  unfold str, NilZero.string_of_int, NilZero.string_of_uint.
  destruct (Z.to_int n) as [d|d]; destruct d; simpl;
    repeat (apply not_elem_of_cons; split; [discriminate|]);
    try apply not_elem_of_nil; apply semicolon_not_in_uint.
Qed.

Lemma semicolon_not_in_join (pieces : list pystr) :
  Forall (fun p => ";"%char ∉ p) pieces → ";"%char ∉ join (lit ",") pieces.
Proof.
  induction pieces as [|p ps IH]; intros Hall; [apply not_elem_of_nil|].
  apply Forall_cons in Hall as [Hp Hps].
  destruct ps as [|q ps]; [done|].
  change (join (lit ",") (p :: q :: ps))
    with (p ++ lit "," ++ join (lit ",") (q :: ps)).
  rewrite !elem_of_app. intros [?|[Hc|?]]; [done| |by apply IH].
  apply list_elem_of_singleton in Hc. discriminate.
Qed.

Lemma semicolon_not_in_frame (instructions : list instruction) :
  ";"%char ∉ frame_text instructions.
Proof.
  unfold frame_text. rewrite !elem_of_app. intros [Hc|[Hc|Hc]].
  - apply list_elem_of_singleton in Hc. discriminate.
  - revert Hc. apply semicolon_not_in_join, Forall_map, Forall_forall.
    intros [d n] _. unfold instruction_text. cbn [instr_direction magnitude].
    rewrite !elem_of_app. intros [Hc|[Hc|Hc]].
    + destruct d; simpl in Hc;
        repeat (apply elem_of_cons in Hc as [Hc|Hc]; [discriminate|]);
        by apply elem_of_nil in Hc.
    + apply list_elem_of_singleton in Hc. discriminate.
    + by apply semicolon_not_in_str in Hc.
  - apply list_elem_of_singleton in Hc. discriminate.
Qed.

(** The pieces [execute_commands] cuts out of a batch are its frames. *)
Lemma split_batch_text (batch : list (list instruction)) :
  batch ≠ [] → split ";" (batch_text batch) = map frame_text batch.
Proof.
  intros Hne. unfold batch_text. apply (split_join ";"%char).
  - by destruct batch.
  - apply Forall_map, Forall_forall. intros instrs _. apply semicolon_not_in_frame.
Qed.

(** ** Threads *)

Lemma create_threads_fit (slots : nat) (parse_text : list pystr) :
  ∀ (count : nat) (started : list worker),
    (count + length parse_text ≤ slots)%nat →
    create_threads slots count parse_text started
    = Joined (started ++ imap (fun j text => Worker (count + j) text) parse_text).
Proof.
  induction parse_text as [|text rest IH]; intros count started Hfit; simpl in *.
  - by rewrite app_nil_r.
  - destruct (Nat.ltb_spec count slots) as [_|?]; [|lia].
    rewrite IH by lia. rewrite <- app_assoc. simpl.
    rewrite Nat.add_0_r. do 3 f_equal.
    apply imap_ext. intros j t _. simpl. f_equal. lia.
Qed.

Lemma create_threads_started (slots : nat) (parse_text : list pystr) :
  ∀ (count : nat) (started : list worker),
    started_workers (create_threads slots count parse_text started)
    = started ++ imap (fun j text => Worker (count + j) text)
                   (take (slots - count) parse_text).
Proof.
  induction parse_text as [|text rest IH]; intros count started; simpl.
  - by rewrite take_nil, app_nil_r.
  - destruct (Nat.ltb_spec count slots) as [Hlt|Hge].
    + rewrite IH. replace (slots - count)%nat with (S (slots - S count)) by lia.
      rewrite <- app_assoc. simpl. rewrite Nat.add_0_r. do 2 f_equal.
      apply imap_ext. intros j t _. simpl. f_equal. lia.
    + replace (slots - count)%nat with 0%nat by lia. simpl. by rewrite app_nil_r.
Qed.

Lemma create_threads_overflow (slots : nat) (parse_text : list pystr) :
  ∀ (count : nat) (started : list worker),
    (count ≤ slots < count + length parse_text)%nat →
    ∃ ws, create_threads slots count parse_text started = ThreadIndexError ws.
Proof.
  induction parse_text as [|text rest IH]; intros count started Hover;
    simpl in *; [lia|].
  destruct (Nat.ltb_spec count slots) as [Hlt|Hge]; [|by eexists].
  apply IH. lia.
Qed.

(** ** The command string of the CSV mode *)

Lemma csv_step_text (current_cell desired_cell : Z) (command_string : pystr) :
  (if current_cell - desired_cell <? 0 then command_string ++ lit "Down,"
   else if current_cell - desired_cell >? 0 then command_string ++ lit "Up,"
   else command_string ++ lit "None,")
  ++ str (Z.abs (current_cell - desired_cell)) ++ lit ","
  = command_string
    ++ instruction_text (instruction_of current_cell desired_cell) ++ [","%char].
Proof.
  unfold instruction_of, instruction_text. cbn [instr_direction magnitude].
  rewrite Z.gtb_ltb.
  destruct (current_cell - desired_cell <? 0);
    [|destruct (0 <? current_cell - desired_cell)];
    cbn [direction_text]; rewrite <- !app_assoc; reflexivity.
Qed.

Lemma csv_columns_spec (motors : Z) (current_row desired_row : list Z) :
  ∀ (count_column : nat) (command_string : pystr),
    (length desired_row + count_column ≤ length current_row)%nat →
    csv_columns motors current_row count_column desired_row command_string
    = Some (command_string
            ++ concat (map (fun i => instruction_text i ++ [","%char])
                 (zip_with instruction_of
                    (take (Z.to_nat motors - count_column)
                       (drop count_column current_row))
                    (take (Z.to_nat motors - count_column) desired_row)))).
Proof.
  induction desired_row as [|desired_cell rest IH];
    intros count_column command_string Hlen.
  - simpl. by rewrite take_nil, zip_with_nil_r, app_nil_r.
  - simpl in Hlen. cbn [csv_columns].
    destruct (Z.ltb_spec (Z.of_nat count_column) motors) as [Hlt|Hge].
    + destruct (lookup_lt_is_Some_2 current_row count_column) as [c Hc]; [lia|].
      rewrite Hc. cbv zeta. rewrite csv_step_text, IH by lia.
      rewrite (drop_S _ _ _ Hc).
      replace (Z.to_nat motors - count_column)%nat
        with (S (Z.to_nat motors - S count_column)) by lia.
      simpl. by rewrite <- !app_assoc.
    + rewrite IH by lia.
      replace (Z.to_nat motors - count_column)%nat with 0%nat by lia.
      by replace (Z.to_nat motors - S count_column)%nat with 0%nat by lia.
Qed.

Lemma position_grid_row (g : grid) (a : Z) :
  position_grid g → 0 <= a < MAX_NUMBER_OF_ARRAYS →
  ∃ row, py_index g a = Some row ∧
         Z.of_nat (length row) = MAX_NUMBER_OF_MOTORS.
Proof.
  intros [Hrows Hcols] Ha. unfold py_index.
  destruct (Z.ltb_spec a 0) as [?|_]; [lia|].
  destruct (lookup_lt_is_Some_2 g (Z.to_nat a)) as [row Hrow]; [lia|].
  exists row. split; [done|].
  by apply (Forall_lookup_1 _ _ _ _ Hcols Hrow).
Qed.

Lemma row_instructions_length (motors : Z) (current_row desired_row : list Z) :
  (Z.to_nat motors ≤ length current_row)%nat →
  (Z.to_nat motors ≤ length desired_row)%nat →
  length (row_instructions motors current_row desired_row) = Z.to_nat motors.
Proof.
  intros Hc Hd. unfold row_instructions.
  rewrite length_zip_with, !length_take. lia.
Qed.

Lemma row_instructions_lookup (motors : Z) (current_row desired_row : list Z)
    (s : nat) (c t : Z) :
  (s < Z.to_nat motors)%nat →
  current_row !! s = Some c → desired_row !! s = Some t →
  row_instructions motors current_row desired_row !! s
  = Some (instruction_of c t).
Proof.
  intros Hs Hc Ht. unfold row_instructions.
  rewrite lookup_zip_with, !lookup_take_lt, Hc, Ht by done. done.
Qed.

Lemma frame_of_terminated (command_string : pystr)
    (instructions : list instruction) :
  instructions ≠ [] →
  drop_last ((command_string ++ lit "<")
             ++ concat (map (fun i => instruction_text i ++ [","%char])
                          instructions))
  ++ lit ">;"
  = command_string ++ frame_text instructions ++ [";"%char].
Proof.
  intros Hne.
  rewrite <- (map_map instruction_text (fun p => p ++ [","%char])).
  rewrite concat_terminated by (by destruct instructions).
  rewrite drop_last_app_snoc. unfold frame_text.
  rewrite <- !app_assoc. reflexivity.
Qed.

Lemma csv_rows_spec (desired_state_list current_state_list : grid)
    (devices : list device) :
  position_grid desired_state_list → position_grid current_state_list →
  Forall connected_device devices →
  ∀ command_string,
    csv_rows desired_state_list current_state_list devices command_string
    = Some (command_string
            ++ concat (map (fun p => p ++ [";"%char])
                 (map frame_text
                    (map (device_instructions desired_state_list
                            current_state_list) devices)))).
Proof.
  intros Hd Hc Hall. induction Hall as [|d rest [Ha Hm] _ IH];
    intros command_string.
  - simpl. by rewrite app_nil_r.
  - destruct (position_grid_row _ _ Hd Ha) as (desired_row & Hdr & Hdl).
    destruct (position_grid_row _ _ Hc Ha) as (current_row & Hcr & Hcl).
    cbn [csv_rows]. rewrite Hdr, Hcr. cbn [mbind option_bind].
    rewrite csv_columns_spec by lia. cbn [mbind option_bind].
    rewrite Nat.sub_0_r, drop_0.
    fold (row_instructions (motor_number d) current_row desired_row).
    rewrite frame_of_terminated.
    + rewrite IH. cbn [map concat]. unfold device_instructions at 2.
      rewrite Hdr, Hcr. by rewrite <- !app_assoc.
    + intros Hnil. apply (f_equal length) in Hnil.
      rewrite row_instructions_length in Hnil by lia. simpl in Hnil. lia.
Qed.

Lemma csv_command_string_spec (desired_state_list current_state_list : grid)
    (devices : list device) :
  position_grid desired_state_list → position_grid current_state_list →
  Forall connected_device devices → devices ≠ [] →
  csv_command_string desired_state_list current_state_list devices
  = Some (batch_text
            (map (device_instructions desired_state_list current_state_list)
               devices)).
Proof.
  intros Hd Hc Hall Hne. unfold csv_command_string.
  rewrite csv_rows_spec by done. cbn [mbind option_bind app].
  rewrite concat_terminated by (by destruct devices).
  by rewrite drop_last_snoc.
Qed.

(** ** lint_serial_port_values *)

Lemma size_list_to_set_le (l : list Z) :
  (size (list_to_set l : gset Z) ≤ length l)%nat.
Proof.
  induction l as [|x l IH]; cbn [list_to_set foldr length].
  - rewrite size_empty. lia.
  - rewrite size_union_alt.
    rewrite size_singleton.
    assert (list_to_set l ∖ {[x]} ⊆ (list_to_set l : gset Z)) as Hsub
      by set_solver.
    apply subseteq_size in Hsub. lia.
Qed.

Lemma size_list_to_set_NoDup (l : list Z) :
  size (list_to_set l : gset Z) = length l ↔ NoDup l.
Proof.
  split; [|apply size_list_to_set].
  induction l as [|x l IH]; intros Hsize; [constructor|].
  cbn [list_to_set foldr length] in Hsize.
  pose proof (size_list_to_set_le l) as Hle.
  destruct (decide (x ∈ l)) as [Hin|Hout].
  - assert ({[x]} ∪ list_to_set l = (list_to_set l : gset Z)) as Heq
      by set_solver.
    rewrite Heq in Hsize. lia.
  - rewrite size_union in Hsize by set_solver.
    rewrite size_singleton in Hsize.
    constructor; [done|]. apply IH. lia.
Qed.

Lemma lint_linted_iff (devices : list device) :
  lint_serial_port_values devices = Linted
  ↔ NoDup (map array_number devices) ∧ Forall connected_device devices.
Proof.
  unfold lint_serial_port_values.
  destruct (Nat.eqb_spec (length (map array_number devices))
              (size (list_to_set (map array_number devices) : gset Z)))
    as [Heq|Hne]; cbn [negb].
  2:{ split; [done|]. intros [Hnd _]. apply size_list_to_set_NoDup in Hnd.
      congruence. }
  symmetry in Heq. apply size_list_to_set_NoDup in Heq.
  destruct (existsb _ (map array_number devices)) eqn:Harr.
  { split; [done|]. intros [_ Hall].
    apply existsb_exists in Harr as (v & Hv & Hbad).
    apply in_map_iff in Hv as (d & <- & Hd).
    apply list_elem_of_In in Hd.
    destruct (proj1 (Forall_forall _ _) Hall d Hd) as [? _]. lia. }
  destruct (existsb _ (map motor_number devices)) eqn:Hmot.
  { split; [done|]. intros [_ Hall].
    apply existsb_exists in Hmot as (v & Hv & Hbad).
    apply in_map_iff in Hv as (d & <- & Hd).
    apply list_elem_of_In in Hd.
    destruct (proj1 (Forall_forall _ _) Hall d Hd) as [_ ?]. lia. }
  split; [intros _|done]. split; [done|].
  apply Forall_forall. intros d Hd. apply list_elem_of_In in Hd.
  split.
  - destruct (Z_lt_le_dec (array_number d) 0) as [?|?];
      [|destruct (Z_lt_le_dec (array_number d) MAX_NUMBER_OF_ARRAYS); [lia|]];
      exfalso; apply not_true_iff_false in Harr; apply Harr;
      apply existsb_exists; exists (array_number d);
      (split; [by apply in_map|lia]).
  - destruct (Z_lt_le_dec (motor_number d) 1) as [?|?];
      [|destruct (Z_le_gt_dec (motor_number d) MAX_NUMBER_OF_MOTORS); [lia|]];
      exfalso; apply not_true_iff_false in Hmot; apply Hmot;
      apply existsb_exists; exists (motor_number d);
      (split; [by apply in_map|lia]).
Qed.

(** ** One worker per frame *)

Lemma execute_batch (devices : list device) (batch : list (list instruction)) :
  batch ≠ [] → length batch = length devices →
  execute_commands devices (batch_text batch)
  = Joined (imap (fun j text => Worker j text) (map frame_text batch)).
Proof.
  intros Hne Hlen. unfold execute_commands.
  rewrite split_batch_text by done.
  rewrite create_threads_fit by (rewrite length_map; lia). done.
Qed.

Lemma csv_workers (desired_state_list current_state_list : grid)
    (devices : list device) :
  position_grid desired_state_list → position_grid current_state_list →
  lint_serial_port_values devices = Linted → devices ≠ [] →
  ∃ command_string,
    csv_command_string desired_state_list current_state_list devices
    = Some command_string ∧
    execute_commands devices command_string
    = Joined (imap (fun j text => Worker j text)
                (map frame_text
                   (map (device_instructions desired_state_list
                           current_state_list) devices))).
Proof.
  intros Hd Hc Hlint Hne. apply lint_linted_iff in Hlint as [_ Hall].
  eexists. split; [by apply csv_command_string_spec|].
  apply execute_batch; [by destruct devices|by rewrite length_map].
Qed.

Lemma csv_worker_text_spec (desired_state_list current_state_list : grid)
    (devices : list device) (i : nat) (d : device) :
  position_grid desired_state_list → position_grid current_state_list →
  lint_serial_port_values devices = Linted → devices !! i = Some d →
  csv_worker_text desired_state_list current_state_list devices i
  = Some (frame_text
            (device_instructions desired_state_list current_state_list d)).
Proof.
  intros Hd Hc Hlint Hi.
  assert (devices ≠ []) as Hne by (intros ->; done).
  destruct (csv_workers _ _ _ Hd Hc Hlint Hne) as (cs & Hcs & Hex).
  unfold csv_worker_text. rewrite Hcs. cbn [mbind option_bind].
  rewrite Hex. cbn [started_workers].
  rewrite list_lookup_imap, !list_lookup_fmap, Hi. done.
Qed.

(** ** The command string of a reset *)

Lemma reset_columns_spec (n : nat) :
  ∀ command_string,
    reset_columns n command_string
    = command_string
      ++ concat (map (fun i => instruction_text i ++ [","%char])
                   (replicate n (Instruction Up 100))).
Proof.
  induction n as [|n IH]; intros command_string; simpl.
  - by rewrite app_nil_r.
  - rewrite IH, <- app_assoc. reflexivity.
Qed.

Lemma reset_rows_spec (devices : list device) :
  Forall connected_device devices →
  ∀ command_string,
    reset_rows devices command_string
    = command_string
      ++ concat (map (fun p => p ++ [";"%char])
           (map frame_text (map reset_instructions devices))).
Proof.
  intros Hall. induction Hall as [|d rest [Ha Hm] _ IH]; intros command_string.
  - simpl. by rewrite app_nil_r.
  - cbn [reset_rows]. rewrite reset_columns_spec.
    fold (reset_instructions d). rewrite frame_of_terminated.
    + rewrite IH. cbn [map concat]. by rewrite <- !app_assoc.
    + intros Hnil. apply (f_equal length) in Hnil.
      unfold reset_instructions in Hnil. rewrite length_replicate in Hnil.
      simpl in Hnil. lia.
Qed.

Lemma reset_workers (devices : list device) :
  lint_serial_port_values devices = Linted → devices ≠ [] →
  execute_commands devices (reset_command_string devices)
  = Joined (imap (fun j text => Worker j text)
              (map frame_text (map reset_instructions devices))).
Proof.
  intros Hlint Hne. apply lint_linted_iff in Hlint as [_ Hall].
  unfold reset_command_string. rewrite reset_rows_spec by done.
  cbn [app]. rewrite concat_terminated by (by destruct devices).
  rewrite drop_last_snoc.
  apply (execute_batch devices (map reset_instructions devices));
    [by destruct devices|by rewrite length_map].
Qed.

Lemma lint_same_array_number (a1 a2 : pystr) (s1 s2 : slot) (n m1 m2 : Z) :
  lint_serial_port_values [Device a1 s1 n m1; Device a2 s2 n m2]
  = LintError DUPLICATES.
Proof.
  unfold lint_serial_port_values. cbn [map array_number length].
  assert (size (list_to_set [n; n] : gset Z) = 1%nat) as ->; [|done].
  cbn [list_to_set foldr].
  assert ({[n]} ∪ ({[n]} ∪ ∅) = ({[n]} : gset Z)) as -> by set_solver.
  apply size_singleton.
Qed.

Lemma scenario_desired_grid : position_grid scenario_desired.
Proof. split; [reflexivity|repeat constructor]. Qed.

Lemma scenario_current_grid : position_grid scenario_current.
Proof. split; [reflexivity|repeat constructor]. Qed.

Lemma scenario_device_linted :
  lint_serial_port_values [scenario_device] = Linted.
Proof. vm_compute. reflexivity. Qed.

Lemma cell_position_grid (g : grid) (d : device) (s : nat) :
  position_grid g → connected_device d → Z.of_nat s < motor_number d →
  ∃ row v, py_index g (array_number d) = Some row ∧ row !! s = Some v ∧
           cell g (array_number d) s = Some v ∧
           (Z.to_nat (motor_number d) ≤ length row)%nat.
Proof.
  intros Hg [Ha Hm] Hs.
  destruct (position_grid_row _ _ Hg Ha) as (row & Hrow & Hlen).
  destruct (lookup_lt_is_Some_2 row s) as [v Hv]; [lia|].
  exists row, v. unfold cell. rewrite Hrow. repeat split; [done..|lia].
Qed.

(** * The claims *)

(** C1. For position grids [desired] and [current] and a connected device
    [d] (the [i]-th of a device list that passed the validation), the text
    handed to the worker of [d] is the frame of one instruction per motor
    of [d], and the instruction of every motor slot [s] below
    [motor_number d] has magnitude
    [|current[array_number d][s] - desired[array_number d][s]|] and
    direction Down when that difference current minus desired is negative,
    Up when it is positive, None when it is zero. *)
Theorem diff_magnitude_and_direction
    (desired current : grid) (devices : list device) (i : nat) (d : device)
    (s : nat) :
  position_grid desired → position_grid current →
  lint_serial_port_values devices = Linted →
  devices !! i = Some d → Z.of_nat s < motor_number d →
  ∃ (instructions : list instruction) (c t : Z) (instr : instruction),
    csv_worker_text desired current devices i = Some (frame_text instructions) ∧
    length instructions = Z.to_nat (motor_number d) ∧
    cell current (array_number d) s = Some c ∧
    cell desired (array_number d) s = Some t ∧
    instructions !! s = Some instr ∧
    magnitude instr = Z.abs (c - t) ∧
    (c - t < 0 → instr_direction instr = Down) ∧
    (0 < c - t → instr_direction instr = Up) ∧
    (c - t = 0 → instr_direction instr = DirNone).
Proof.
  intros Hd Hc Hlint Hi Hs.
  pose proof (proj1 (lint_linted_iff devices) Hlint) as [_ Hall].
  pose proof (Forall_lookup_1 _ _ _ _ Hall Hi) as Hdev.
  destruct (cell_position_grid _ _ _ Hc Hdev Hs)
    as (current_row & c & Hcr & Hcs & Hcc & Hcl).
  destruct (cell_position_grid _ _ _ Hd Hdev Hs)
    as (desired_row & t & Hdr & Hds & Hdc & Hdl).
  exists (device_instructions desired current d), c, t, (instruction_of c t).
  split; [by apply csv_worker_text_spec|].
  unfold device_instructions. rewrite Hcr, Hdr.
  split; [by apply row_instructions_length|].
  do 2 (split; [done|]).
  split; [apply row_instructions_lookup; [lia|done..]|].
  unfold instruction_of. cbn [magnitude instr_direction].
  split; [done|]. repeat split; intros Hsign.
  - by destruct (Z.ltb_spec (c - t) 0); [|lia].
  - destruct (Z.ltb_spec (c - t) 0); [lia|].
    by destruct (Z.ltb_spec 0 (c - t)); [|lia].
  - destruct (Z.ltb_spec (c - t) 0); [lia|].
    by destruct (Z.ltb_spec 0 (c - t)); [lia|].
Qed.

Lemma diff_magnitude_and_direction_witness :
  ∃ (instructions : list instruction) (c t : Z) (instr : instruction),
    csv_worker_text scenario_desired scenario_current [scenario_device] 0
    = Some (frame_text instructions) ∧
    length instructions = Z.to_nat (motor_number scenario_device) ∧
    cell scenario_current (array_number scenario_device) 0 = Some c ∧
    cell scenario_desired (array_number scenario_device) 0 = Some t ∧
    instructions !! 0%nat = Some instr ∧
    magnitude instr = Z.abs (c - t) ∧
    (c - t < 0 → instr_direction instr = Down) ∧
    (0 < c - t → instr_direction instr = Up) ∧
    (c - t = 0 → instr_direction instr = DirNone).
Proof.
  apply (diff_magnitude_and_direction
           scenario_desired scenario_current [scenario_device] 0
           scenario_device 0).
  - split; [reflexivity|repeat constructor].
  - split; [reflexivity|repeat constructor].
  - vm_compute. reflexivity.
  - reflexivity.
  - reflexivity.
Defined.

(** C2, as the specification states it, fails: in the scenario the text
    handed to the worker of array 0 is not [<Down,2,None,0>]. *)
Lemma scenario_text_is_not_down :
  csv_worker_text scenario_desired scenario_current [scenario_device] 0
  ≠ Some (lit "<Down,2,None,0>").
Proof. vm_compute. discriminate. Qed.

(** C2, amended. With [MAX_NUMBER_OF_ARRAYS = 4] and
    [MAX_NUMBER_OF_MOTORS = 10] (the shape of a position grid), when the desired row of
    array 0 is [3,0,0,...], its current row is [5,0,0,...] and the device
    of array 0 owns two motors, the instruction text of that device is
    exactly [<Up,2,None,0>]: current minus desired is 2, which is positive. *)
Theorem scenario_text_is_up
    (desired current : grid) (devices : list device) (i : nat) (d : device) :
  position_grid desired → position_grid current →
  lint_serial_port_values devices = Linted →
  devices !! i = Some d → array_number d = 0 → motor_number d = 2 →
  desired !! 0%nat = Some [3; 0; 0; 0; 0; 0; 0; 0; 0; 0] →
  current !! 0%nat = Some [5; 0; 0; 0; 0; 0; 0; 0; 0; 0] →
  csv_worker_text desired current devices i = Some (lit "<Up,2,None,0>").
Proof.
  intros Hd Hc Hlint Hi Ha Hm Hdr Hcr.
  rewrite (csv_worker_text_spec _ _ _ _ _ Hd Hc Hlint Hi).
  unfold device_instructions, py_index. rewrite Ha, Hm.
  change (0 <? 0) with false. change (Z.to_nat 0) with 0%nat. cbv iota.
  rewrite Hdr, Hcr. reflexivity.
Qed.

Lemma scenario_text_is_up_witness :
  csv_worker_text scenario_desired scenario_current [scenario_device] 0
  = Some (lit "<Up,2,None,0>").
Proof.
  apply (scenario_text_is_up scenario_desired scenario_current
           [scenario_device] 0 scenario_device).
  - split; [reflexivity|repeat constructor].
  - split; [reflexivity|repeat constructor].
  - vm_compute. reflexivity.
  - reflexivity.
  - reflexivity.
  - reflexivity.
  - reflexivity.
  - reflexivity.
Defined.

Lemma take_agree {A} (n : nat) (l l' : list A) :
  (∀ s, (s < n)%nat → l !! s = l' !! s) → take n l = take n l'.
Proof.
  intros Hagree. apply list_eq. intros s.
  destruct (Nat.lt_ge_cases s n) as [Hlt|Hge].
  - rewrite !lookup_take_lt by done. by apply Hagree.
  - by rewrite !lookup_take_ge.
Qed.

(** C10. For a fixed device set, the text the CSV mode produces for a
    device [d] depends only on the cells of row [array_number d] at the
    columns below [motor_number d] of the desired and the current grid:
    two pairs of position grids that agree on those cells give [d] the same
    text, whatever their other rows and their other columns hold. *)
Theorem csv_text_depends_on_own_cells
    (desired current desired' current' : grid) (devices : list device)
    (i : nat) (d : device) :
  position_grid desired → position_grid current →
  position_grid desired' → position_grid current' →
  lint_serial_port_values devices = Linted →
  devices !! i = Some d →
  (∀ s : nat, Z.of_nat s < motor_number d →
     cell desired (array_number d) s = cell desired' (array_number d) s ∧
     cell current (array_number d) s = cell current' (array_number d) s) →
  ∃ text,
    csv_worker_text desired current devices i = Some text ∧
    csv_worker_text desired' current' devices i = Some text.
Proof.
  intros Hd Hc Hd' Hc' Hlint Hi Hagree.
  exists (frame_text (device_instructions desired current d)).
  split; [by apply csv_worker_text_spec|].
  rewrite (csv_worker_text_spec _ _ _ _ _ Hd' Hc' Hlint Hi). do 2 f_equal.
  pose proof (proj1 (lint_linted_iff devices) Hlint) as [_ Hall].
  pose proof (Forall_lookup_1 _ _ _ _ Hall Hi) as [Ha Hm].
  destruct (position_grid_row _ _ Hd Ha) as (dr & Hdr & _).
  destruct (position_grid_row _ _ Hc Ha) as (cr & Hcr & _).
  destruct (position_grid_row _ _ Hd' Ha) as (dr' & Hdr' & _).
  destruct (position_grid_row _ _ Hc' Ha) as (cr' & Hcr' & _).
  unfold device_instructions, row_instructions.
  rewrite Hdr, Hcr, Hdr', Hcr'.
  assert (∀ s, (s < Z.to_nat (motor_number d))%nat →
            dr !! s = dr' !! s ∧ cr !! s = cr' !! s) as Hrows.
  { intros s Hs. destruct (Hagree s) as [H1 H2]; [lia|].
    unfold cell in H1, H2. by rewrite Hdr, Hcr, Hdr', Hcr' in *. }
  f_equal; symmetry; apply take_agree; intros s Hs; by apply Hrows.
Qed.

Lemma csv_text_depends_on_own_cells_witness :
  ∃ text,
    csv_worker_text scenario_desired scenario_current [scenario_device] 0
    = Some text ∧
    csv_worker_text scenario_desired_elsewhere scenario_current_elsewhere
      [scenario_device] 0 = Some text.
Proof.
  apply (csv_text_depends_on_own_cells
           scenario_desired scenario_current
           scenario_desired_elsewhere scenario_current_elsewhere
           [scenario_device] 0 scenario_device).
  - split; [reflexivity|repeat constructor].
  - split; [reflexivity|repeat constructor].
  - split; [reflexivity|repeat constructor].
  - split; [reflexivity|repeat constructor].
  - vm_compute. reflexivity.
  - reflexivity.
  - intros [|[|s]] Hs; [split; reflexivity..|simpl in Hs; lia].
Defined.

(** C9, as the specification states it, fails: with two connected devices
    and a manual text of one frame, one worker is started, not two. *)
Lemma manual_text_starts_fewer_workers :
  length (started_workers (execute_commands two_devices manual_one_frame))
  ≠ length two_devices.
Proof. vm_compute. discriminate. Qed.

(** C9, amended. For a validated, non-empty device set, the batch built
    from the CSV grids and the batch of a reset both start and join
    exactly one worker per connected device.  For any text, a manual one
    included, the number of workers started is the smaller of the number
    of [;]-separated pieces of the text and the number of devices (with
    more pieces than devices the call stops on an index error once
    every device has its worker), and the thread slot and device index of
    every worker started is below the number of devices. *)
Theorem workers_per_batch
    (desired current : grid) (devices : list device) (manual : pystr) :
  position_grid desired → position_grid current →
  lint_serial_port_values devices = Linted → devices ≠ [] →
  (∃ command_string ws,
     csv_command_string desired current devices = Some command_string ∧
     execute_commands devices command_string = Joined ws ∧
     length ws = length devices) ∧
  (∃ ws,
     execute_commands devices (reset_command_string devices) = Joined ws ∧
     length ws = length devices) ∧
  length (started_workers (execute_commands devices manual))
  = (length (split ";" manual) `min` length devices)%nat ∧
  ((length devices < length (split ";" manual))%nat →
   ∃ ws, execute_commands devices manual = ThreadIndexError ws) ∧
  Forall (fun w => (worker_port w < length devices)%nat)
    (started_workers (execute_commands devices manual)).
Proof.
  intros Hd Hc Hlint Hne. split; [|split; [|split; [|split]]].
  - destruct (csv_workers _ _ _ Hd Hc Hlint Hne) as (cs & Hcs & Hex).
    eexists _, _. split; [done|]. split; [done|].
    by rewrite length_imap, !length_map.
  - eexists. split; [by apply reset_workers|].
    by rewrite length_imap, !length_map.
  - unfold execute_commands. rewrite create_threads_started.
    cbn [app]. rewrite length_imap, length_take. lia.
  - intros Hover. unfold execute_commands.
    apply create_threads_overflow. lia.
  - unfold execute_commands. rewrite create_threads_started. cbn [app].
    apply Forall_lookup. intros j w Hw.
    apply list_lookup_imap_Some in Hw as (text & Htext & ->).
    apply lookup_lt_Some in Htext. rewrite length_take in Htext.
    simpl. lia.
Qed.

Lemma workers_per_batch_witness :
  (∃ command_string ws,
     csv_command_string scenario_desired scenario_current two_devices
     = Some command_string ∧
     execute_commands two_devices command_string = Joined ws ∧
     length ws = length two_devices) ∧
  (∃ ws,
     execute_commands two_devices (reset_command_string two_devices)
     = Joined ws ∧
     length ws = length two_devices) ∧
  length (started_workers (execute_commands two_devices manual_one_frame))
  = (length (split ";" manual_one_frame) `min` length two_devices)%nat ∧
  ((length two_devices < length (split ";" manual_one_frame))%nat →
   ∃ ws, execute_commands two_devices manual_one_frame = ThreadIndexError ws) ∧
  Forall (fun w => (worker_port w < length two_devices)%nat)
    (started_workers (execute_commands two_devices manual_one_frame)).
Proof.
  apply (workers_per_batch scenario_desired scenario_current two_devices
           manual_one_frame).
  - split; [reflexivity|repeat constructor].
  - split; [reflexivity|repeat constructor].
  - vm_compute. reflexivity.
  - discriminate.
Defined.

(** C4 (the code departs from it). A reset first writes the zeroed current
    state, then prints and dispatches its command string; but the table it
    writes has [MAX_NUMBER_OF_MOTORS] rows of [MAX_NUMBER_OF_ARRAYS] zeros,
    10 rows of 4, which is not the position grid of
    [MAX_NUMBER_OF_ARRAYS] rows by [MAX_NUMBER_OF_MOTORS] columns. *)
Theorem reset_writes_transposed_table (devices : list device) :
  ∃ command_string r,
    commands_from_reset devices
    = [WroteCurrentState current_state_list_zero;
       Printed command_string; Executed r] ∧
    Z.of_nat (length current_state_list_zero) = MAX_NUMBER_OF_MOTORS ∧
    Forall (fun row => Z.of_nat (length row) = MAX_NUMBER_OF_ARRAYS
                       ∧ Forall (fun v => v = 0) row)
      current_state_list_zero ∧
    length current_state_list_zero = 10%nat ∧
    ¬ position_grid current_state_list_zero.
Proof.
  eexists _, _. split; [reflexivity|].
  split; [reflexivity|]. split; [|split; [reflexivity|]].
  - repeat constructor.
  - intros [Hrows _]. vm_compute in Hrows. discriminate.
Qed.

(** The instructions of a reset are right: for a validated device set,
    the worker of every device is handed one [Up,100] per motor it owns. *)
Lemma reset_worker_text_spec (devices : list device) (i : nat) (d : device) :
  lint_serial_port_values devices = Linted → devices !! i = Some d →
  reset_worker_text devices i
  = Some (frame_text
            (replicate (Z.to_nat (motor_number d)) (Instruction Up 100))).
Proof.
  intros Hlint Hi.
  assert (devices ≠ []) as Hne by (intros ->; done).
  unfold reset_worker_text. rewrite reset_workers by done.
  cbn [started_workers].
  rewrite list_lookup_imap, !list_lookup_fmap, Hi. done.
Qed.

(** C6. The validation of the registry fails if and only if the device
    list holds a duplicate array number, or an array number outside
    [0, MAX_NUMBER_OF_ARRAYS), or a number of motors outside
    [1, MAX_NUMBER_OF_MOTORS]; a failure is an error and no list of
    devices; two devices that both report array number 2 are refused for
    duplicates. *)
Theorem lint_fails_iff (devices : list device) :
  (lint_serial_port_values devices ≠ Linted ↔
     ¬ NoDup (map array_number devices)
     ∨ Exists (fun d => ¬ (0 <= array_number d < MAX_NUMBER_OF_ARRAYS)) devices
     ∨ Exists (fun d => ¬ (1 <= motor_number d <= MAX_NUMBER_OF_MOTORS)) devices)
  ∧ (lint_serial_port_values devices ≠ Linted ↔
       ∃ f, lint_serial_port_values devices = LintError f)
  ∧ ∀ a1 s1 m1 a2 s2 m2,
      lint_serial_port_values [Device a1 s1 2 m1; Device a2 s2 2 m2]
      = LintError DUPLICATES.
Proof.
  split; [|split].
  - rewrite lint_linted_iff. split.
    + intros Hnot.
      destruct (decide (NoDup (map array_number devices))) as [Hnd|Hdup];
        [|by left]. right.
      destruct (decide (Forall (fun d => 0 <= array_number d
                                         < MAX_NUMBER_OF_ARRAYS) devices))
        as [Harr|Harr]; [|left; by apply not_Forall_Exists in Harr; [|apply _]].
      right.
      destruct (decide (Forall (fun d => 1 <= motor_number d
                                         <= MAX_NUMBER_OF_MOTORS) devices))
        as [Hmot|Hmot]; [|by apply not_Forall_Exists in Hmot; [|apply _]].
      exfalso. apply Hnot. split; [done|].
      apply Forall_forall. intros d Hd. split.
      * by apply (proj1 (Forall_forall _ _) Harr).
      * by apply (proj1 (Forall_forall _ _) Hmot).
    + intros [Hdup|[Hbad|Hbad]] [Hnd Hall]; [done| |];
        apply Exists_exists in Hbad as (d & Hd & Hbad);
        apply Hbad; by destruct (proj1 (Forall_forall _ _) Hall d Hd).
  - destruct (lint_serial_port_values devices) as [|f].
    + split; [done|]. by intros [f ?].
    + split; [by exists f|done].
  - intros a1 s1 m1 a2 s2 m2. apply lint_same_array_number.
Qed.

(** ** The framed channel *)

Lemma ord_of_byte (b : byte) : ord (ascii_of_byte b) = Z.of_N (Byte.to_N b).
Proof. by destruct b. Qed.

Lemma byte_to_N_inj (b b' : byte) : Byte.to_N b = Byte.to_N b' → b = b'.
Proof.
  intros Heq. pose proof (Byte.of_to_N b) as Hb.
  rewrite Heq, Byte.of_to_N in Hb. congruence.
Qed.

Lemma ord_is_marker (b marker : byte) :
  ord (ascii_of_byte b) = Z.of_N (Byte.to_N marker) ↔ b = marker.
Proof.
  rewrite ord_of_byte. split; [|by intros ->].
  intros Heq. apply byte_to_N_inj. lia.
Qed.

Lemma decode_ascii_byte (b : byte) :
  ascii_byte b → decode b = Some (ascii_of_byte b).
Proof.
  unfold ascii_byte, decode. intros Hb.
  by destruct (N.ltb_spec (Byte.to_N b) 128); [|lia].
Qed.

Lemma save_data_end (stream : list byte) (recieve_char : ascii)
    (recieve_string : pystr) :
  ord recieve_char = END_MARKER →
  save_data stream recieve_char recieve_string
  = Recieved recieve_string stream.
Proof. intros Hend. destruct stream; simpl; by rewrite Hend. Qed.

Lemma save_data_frame (body rest : list byte) :
  Forall ascii_byte body → x3e ∉ body →
  ∀ (recieve_char : ascii) (recieve_string : pystr),
    ord recieve_char ≠ END_MARKER →
    save_data (body ++ x3e :: rest) recieve_char recieve_string
    = Recieved
        (recieve_string
         ++ (if ord recieve_char =? START_MARKER then [] else [recieve_char])
         ++ map ascii_of_byte (filter (fun b => b ≠ x3c) body))
        rest.
Proof.
  induction body as [|b body IH]; intros Hascii Hend c acc Hc.
  - simpl. destruct (Z.eqb_spec (ord c) END_MARKER) as [?|_]; [done|].
    rewrite save_data_end by done. rewrite app_nil_r.
    destruct (ord c =? START_MARKER); by rewrite ?app_nil_r.
  - apply Forall_cons in Hascii as [Hb Hascii].
    apply not_elem_of_cons in Hend as [Hne Hend].
    cbn [app save_data].
    destruct (Z.eqb_spec (ord c) END_MARKER) as [?|_]; [done|].
    rewrite (decode_ascii_byte b Hb).
    rewrite IH; [|done|done|].
    2:{ intros Hmark. apply (ord_is_marker b x3e) in Hmark. congruence. }
    f_equal. rewrite filter_cons.
    destruct (Z.eqb_spec (ord (ascii_of_byte b)) START_MARKER) as [Hs|Hs].
    + apply (ord_is_marker b x3c) in Hs. subst b.
      rewrite decide_False by (intros Hn; by apply Hn).
      destruct (ord c =? START_MARKER); by rewrite <- ?app_assoc.
    + rewrite decide_True.
      2:{ intros ->. by apply Hs. }
      destruct (ord c =? START_MARKER); by rewrite <- ?app_assoc.
Qed.

Lemma skip_to_start (junk stream : list byte) :
  Forall ascii_byte junk → x3c ∉ junk →
  recieve_from_arduino (junk ++ x3c :: stream) = save_data stream "<"%char [].
Proof.
  induction junk as [|b junk IH]; intros Hascii Hstart.
  - reflexivity.
  - apply Forall_cons in Hascii as [Hb Hascii].
    apply not_elem_of_cons in Hstart as [Hne Hstart].
    cbn [app recieve_from_arduino]. rewrite (decode_ascii_byte b Hb).
    destruct (Z.eqb_spec (ord (ascii_of_byte b)) START_MARKER) as [Hs|_].
    + apply (ord_is_marker b x3c) in Hs. congruence.
    + by apply IH.
Qed.

(** Bytes that follow an early start marker are part of the frame: read
    as noise [<ab] before the frame [<cd>], the noise is not discarded. *)
Example bytes_after_an_early_start_marker_are_kept :
  recieve_from_arduino [x3c; x61; x62; x3c; x63; x64; x3e]
  = Recieved (lit "abcd") [].
Proof. reflexivity. Qed.

(** C5, as the specification states it, fails: a payload byte above 127
    cannot be decoded on its own, and the frame is not returned. *)
Lemma undecodable_payload_is_not_returned :
  recieve_from_arduino ([] ++ [x3c] ++ [xe9] ++ [x3e] ++ [])
  = UnicodeDecodeError.
Proof. reflexivity. Qed.

(** C5, amended. For every incoming sequence of bytes below 128 made of
    noise without a start marker, a start marker, a payload without an end
    marker and an end marker, the frame read is the payload, decoded,
    without its start markers: the noise is discarded, a start marker
    inside the open frame is dropped, no marker appears in the result,
    and a payload without markers is recovered exactly.  The bytes after
    the end marker are left unread. *)
Theorem recieve_from_arduino_frame (noise payload rest : list byte) :
  Forall ascii_byte (noise ++ payload) →
  x3c ∉ noise → x3e ∉ payload →
  recieve_from_arduino (noise ++ [x3c] ++ payload ++ [x3e] ++ rest)
  = Recieved (map ascii_of_byte (filter (fun b => b ≠ x3c) payload)) rest
  ∧ ("<"%char ∉ map ascii_of_byte (filter (fun b => b ≠ x3c) payload))
  ∧ (">"%char ∉ map ascii_of_byte (filter (fun b => b ≠ x3c) payload))
  ∧ (x3c ∉ payload →
     recieve_from_arduino (noise ++ [x3c] ++ payload ++ [x3e] ++ rest)
     = Recieved (map ascii_of_byte payload) rest).
Proof.
  intros Hascii Hnoise Hend.
  apply Forall_app in Hascii as [Hna Hpa].
  assert (recieve_from_arduino (noise ++ [x3c] ++ payload ++ [x3e] ++ rest)
          = Recieved (map ascii_of_byte (filter (fun b => b ≠ x3c) payload))
              rest) as Hframe.
  { cbn [app]. rewrite skip_to_start by done.
    rewrite save_data_frame by done. reflexivity. }
  split; [done|]. split; [|split].
  - intros Hin. apply list_elem_of_fmap in Hin as (b & Hb & Hin).
    apply list_elem_of_filter in Hin as [Hne _]. apply Hne.
    rewrite <- (byte_of_ascii_of_byte b), <- Hb. reflexivity.
  - intros Hin. apply list_elem_of_fmap in Hin as (b & Hb & Hin).
    apply list_elem_of_filter in Hin as [_ Hin]. apply Hend.
    rewrite <- (byte_of_ascii_of_byte b), <- Hb in Hin. exact Hin.
  - intros Hstart. rewrite Hframe. do 2 f_equal.
    clear -Hstart. induction payload as [|b payload IH]; [done|].
    apply not_elem_of_cons in Hstart as [Hne Hstart].
    rewrite filter_cons, decide_True by congruence. by rewrite IH.
Qed.

Lemma recieve_from_arduino_frame_witness :
  recieve_from_arduino
    ([x41; x3e] ++ [x3c] ++ [x3c; x6f; x6b] ++ [x3e] ++ [x7a])
  = Recieved
      (map ascii_of_byte (filter (fun b => b ≠ x3c) [x3c; x6f; x6b])) [x7a]
  ∧ ("<"%char ∉ map ascii_of_byte (filter (fun b => b ≠ x3c) [x3c; x6f; x6b]))
  ∧ (">"%char ∉ map ascii_of_byte (filter (fun b => b ≠ x3c) [x3c; x6f; x6b]))
  ∧ (x3c ∉ [x3c; x6f; x6b] →
     recieve_from_arduino
       ([x41; x3e] ++ [x3c] ++ [x3c; x6f; x6b] ++ [x3e] ++ [x7a])
     = Recieved (map ascii_of_byte [x3c; x6f; x6b]) [x7a]).
Proof.
  apply (recieve_from_arduino_frame [x41; x3e] [x3c; x6f; x6b] [x7a]).
  - repeat constructor.
  - intros Hin. repeat (apply elem_of_cons in Hin as [Hin|Hin];
                        [discriminate|]). by apply elem_of_nil in Hin.
  - intros Hin. repeat (apply elem_of_cons in Hin as [Hin|Hin];
                        [discriminate|]). by apply elem_of_nil in Hin.
Defined.

(** ** Runs of characters *)

Section Runs.
Variable keep : ascii → bool.

Lemma runs_go_break (cur t s : pystr) (c : ascii) :
  keep c = false →
  runs_go keep cur (t ++ c :: s) = runs_go keep cur t ++ runs keep s.
Proof.
  intros Hc. revert cur.
  induction t as [|a t IH]; intros cur; cbn [app runs_go].
  - rewrite Hc. by destruct cur.
  - destruct (keep a); [apply IH|].
    destruct cur; [apply IH|]. by rewrite IH.
Qed.

Lemma runs_break (t s : pystr) (c : ascii) :
  keep c = false → runs keep (t ++ c :: s) = runs keep t ++ runs keep s.
Proof. apply runs_go_break. Qed.

Lemma runs_go_all (cur t : pystr) :
  forallb keep t = true →
  runs_go keep cur t
  = match rev cur ++ t with [] => [] | run => [run] end.
Proof.
  revert cur. induction t as [|a t IH]; intros cur Hall.
  - cbn [runs_go]. rewrite app_nil_r. destruct cur as [|c cur]; [done|].
    destruct (rev (c :: cur)) eqn:Hrev; [|done].
    apply (f_equal length) in Hrev. rewrite length_rev in Hrev. done.
  - cbn [forallb] in Hall. apply andb_prop in Hall as [Ha Hall].
    cbn [runs_go]. rewrite Ha, IH by done.
    cbn [rev]. by rewrite <- app_assoc.
Qed.

Lemma runs_go_none (cur t : pystr) :
  forallb (fun c => negb (keep c)) t = true →
  runs_go keep cur t = match cur with [] => [] | _ => [rev cur] end.
Proof.
  revert cur. induction t as [|a t IH]; intros cur Hnone; [done|].
  cbn [forallb] in Hnone. apply andb_prop in Hnone as [Ha Hnone].
  apply negb_true_iff in Ha. cbn [runs_go]. rewrite Ha.
  destruct cur; by rewrite IH.
Qed.
End Runs.

Lemma runs_refine (fine coarse : ascii → bool) :
  (∀ c, fine c = true → coarse c = true) →
  ∀ (s cur : pystr),
    forallb coarse cur = true →
    concat (map (runs fine) (runs_go coarse cur s)) = runs fine (rev cur ++ s).
Proof.
  intros Hsub. induction s as [|c s IH]; intros cur Hcur.
  - cbn [runs_go]. rewrite app_nil_r. destruct cur as [|a cur]; [done|].
    cbn [map concat]. by rewrite app_nil_r.
  - cbn [runs_go]. destruct (coarse c) eqn:Hc.
    + rewrite IH by (cbn [forallb]; by rewrite Hc).
      cbn [rev]. by rewrite <- app_assoc.
    + assert (fine c = false) as Hf.
      { destruct (fine c) eqn:Hf; [|done]. apply Hsub in Hf. congruence. }
      rewrite runs_break by done.
      destruct cur as [|a cur].
      * rewrite (IH []) by done. done.
      * cbn [map concat]. by rewrite (IH []) by done.
Qed.

Lemma digit_is_not_space (c : ascii) :
  isdigit_char c = true → negb (isspace c) = true.
Proof.
  unfold isdigit_char, isspace. intros Hd.
  apply andb_prop in Hd as [H1 H2].
  apply Z.leb_le in H1. apply Z.leb_le in H2.
  apply negb_true_iff, orb_false_iff. split; apply andb_false_iff.
  - right. apply Z.leb_gt. lia.
  - right. apply Z.leb_gt. lia.
Qed.

Lemma digit_runs_of_pieces (pieces : list pystr) :
  Forall digits_or_none pieces →
  concat (map (runs isdigit_char) pieces)
  = filter (fun i => isdigit i = true) pieces.
Proof.
  induction 1 as [|piece pieces Hpiece _ IH]; [done|].
  cbn [map concat]. rewrite IH, filter_cons.
  destruct (isdigit piece) eqn:Hdig.
  - rewrite decide_True by done.
    unfold runs. rewrite runs_go_all.
    + by destruct piece.
    + by destruct piece.
  - rewrite decide_False by done.
    destruct Hpiece as [?|Hnone]; [congruence|].
    unfold runs. by rewrite runs_go_none.
Qed.

Lemma array_info_is_digit_runs (msg : pystr) :
  Forall digits_or_none (split_whitespace msg) →
  array_info_of msg = maximal_digit_runs msg.
Proof.
  intros Hpieces. unfold array_info_of, maximal_digit_runs.
  rewrite <- (digit_runs_of_pieces _ Hpieces). f_equal.
  exact (runs_refine isdigit_char _ digit_is_not_space msg [] eq_refl).
Qed.

(** C3, as the specification states it, fails: a number glued to a word
    is a run of digits of the payload, but it is not extracted. *)
Lemma glued_number_is_not_extracted :
  find reply_glued (lit "Arduino is ready") ≠ -1 ∧
  maximal_digit_runs reply_glued = [2; 7] ∧
  array_info_of reply_glued = [7] ∧
  array_info_of reply_glued ≠ maximal_digit_runs reply_glued.
Proof. vm_compute. repeat split; discriminate. Qed.

(** C3, amended. When the frame read holds the readiness sentinel, the
    integers extracted are those of the pieces of the payload between
    white space that are made of decimal digits only, in order of
    appearance; they are the maximal runs of digits of the payload when
    every piece is either such a number or free of digits.  The first
    integer becomes the array number and the second the number of motors;
    with fewer than two integers the port is reported as failed with the
    message for a bad number, which is not the message of a timeout. *)
Theorem handshake_reply_parsed
    (a : pystr) (s : slot) (stream rest : list byte) (msg : pystr) :
  recieve_from_arduino stream = Recieved msg rest →
  find msg (lit "Arduino is ready") ≠ -1 →
  wait_for_arduino_connection_execute stream
  = ArrayInfo
      (map int (filter (fun i => isdigit i = true) (split_whitespace msg)))
  ∧ (Forall digits_or_none (split_whitespace msg) →
     wait_for_arduino_connection_execute stream
     = ArrayInfo (maximal_digit_runs msg))
  ∧ (∀ n0 n1 more,
       array_info_of msg = n0 :: n1 :: more →
       wait_for_arduino_connection a s stream
       = Some (false, READY, Connected (Device a s n0 n1)))
  ∧ ((length (array_info_of msg) < 2)%nat →
     wait_for_arduino_connection a s stream
     = Some (true, FAILED_NEGATIVE_NUMBER, Opened a s))
  ∧ FAILED_NEGATIVE_NUMBER ≠ FAILED_TIMEOUT.
Proof.
  intros Hframe Hfound.
  assert (wait_for_arduino_connection_execute stream
          = ArrayInfo (array_info_of msg)) as Hexec.
  { unfold wait_for_arduino_connection_execute. cbn [handshake_loop].
    rewrite Hframe.
    by destruct (Z.eqb_spec (find msg (lit "Arduino is ready")) (-1)). }
  split; [done|]. split; [|split; [|split; [|done]]].
  - intros Hpieces. by rewrite Hexec, array_info_is_digit_runs.
  - intros n0 n1 more Hinfo. unfold wait_for_arduino_connection.
    by rewrite Hexec, Hinfo.
  - intros Hshort. unfold wait_for_arduino_connection. rewrite Hexec.
    destruct (array_info_of msg) as [|n0 [|n1 more]]; [done..|].
    simpl in Hshort. lia.
Qed.

Lemma handshake_reply_parsed_witness :
  wait_for_arduino_connection_execute reply_spaced
  = ArrayInfo
      (map int (filter (fun i => isdigit i = true)
                  (split_whitespace (lit "Arduino is ready 2 7"))))
  ∧ (Forall digits_or_none (split_whitespace (lit "Arduino is ready 2 7")) →
     wait_for_arduino_connection_execute reply_spaced
     = ArrayInfo (maximal_digit_runs (lit "Arduino is ready 2 7")))
  ∧ (∀ n0 n1 more,
       array_info_of (lit "Arduino is ready 2 7") = n0 :: n1 :: more →
       wait_for_arduino_connection (lit "/dev/ttyUSB0") (SerialObject 0)
         reply_spaced
       = Some (false, READY,
               Connected (Device (lit "/dev/ttyUSB0") (SerialObject 0) n0 n1)))
  ∧ ((length (array_info_of (lit "Arduino is ready 2 7")) < 2)%nat →
     wait_for_arduino_connection (lit "/dev/ttyUSB0") (SerialObject 0)
       reply_spaced
     = Some (true, FAILED_NEGATIVE_NUMBER,
             Opened (lit "/dev/ttyUSB0") (SerialObject 0)))
  ∧ FAILED_NEGATIVE_NUMBER ≠ FAILED_TIMEOUT.
Proof.
  apply (handshake_reply_parsed (lit "/dev/ttyUSB0") (SerialObject 0)
           reply_spaced [] (lit "Arduino is ready 2 7")).
  - reflexivity.
  - vm_compute. discriminate.
Defined.

(** ** Closing the ports *)

Lemma on_error_keeps_handles (rows : list port_row) (handles : gset nat)
    (next : nat) :
  open_handles (on_error rows handles next).1.2 = handles.
Proof.
  unfold on_error. destruct rows as [|row rows]; [done|].
  by destruct (close_connections (row :: rows)) as [[rows' reports]|].
Qed.

Lemma open_ports_keeps_handles (can_open : pystr → bool)
    (addresses : list pystr) :
  ∀ (handles : gset nat) (next : nat),
    handles ⊆ (open_ports can_open addresses handles next).1.2.
Proof.
  induction addresses as [|a rest IH]; intros handles next; [done|].
  cbn [open_ports]. destruct (can_open a); [|done].
  specialize (IH ({[next]} ∪ handles) (S next)).
  destruct (open_ports can_open rest ({[next]} ∪ handles) (S next))
    as [[[opened unreached] handles'] next'].
  simpl in *. set_solver.
Qed.

Lemma on_error_is_not_ready (rows : list port_row) (handles : gset nat)
    (next : nat) (devices : list device) :
  (on_error rows handles next).1.1 ≠ Ready devices.
Proof.
  unfold on_error. destruct rows as [|row rows]; [done|].
  by destruct (close_connections (row :: rows)) as [[rows' reports]|].
Qed.

(** A connect attempt hands devices to the command loop only when the
    validation accepted all of them. *)
Lemma ready_only_when_linted (env : environment) (st : system)
    (devices : list device) :
  (connect_attempt env st).1.1 = Ready devices →
  lint_serial_port_values devices = Linted.
Proof.
  unfold connect_attempt.
  destruct (found env) as [addresses|];
    [|intros H; by apply on_error_is_not_ready in H].
  destruct (Z.of_nat (length addresses) >? MAX_NUMBER_OF_ARRAYS);
    [intros H; by apply on_error_is_not_ready in H|].
  destruct (open_ports _ _ _ _) as [[[opened unreached] handles'] next'].
  destruct unreached; [|intros H; by apply on_error_is_not_ready in H].
  destruct (collect_results _) as [ds| |];
    [|intros H; by apply on_error_is_not_ready in H|done].
  destruct (lint_serial_port_values ds) eqn:Hlint;
    [|intros H; by apply on_error_is_not_ready in H].
  cbn [fst]. intros [= <-]. done.
Qed.

(** C7 (the code departs from it). No path of a connect attempt closes a
    serial object: whatever was open before the attempt is open after it.
    When the handshake of the only port times out, and when two ports
    report the same array number, the attempt ends in a retry, every port
    is reported CLOSED, and the serial objects opened during the attempt
    are still open: [close_connections] stores the bound method [close] in
    the row without calling it. *)
Theorem failed_attempt_leaves_ports_open :
  (∀ env st, open_handles st ⊆ open_handles (connect_attempt env st).1.2)
  ∧ (∃ st',
       connect_attempt silent_environment fresh_system
       = (Retry, st', [CLOSED]) ∧
       serial_ports st' = [Opened (lit "/dev/ttyUSB0") (BoundClose 0)] ∧
       0%nat ∈ open_handles st')
  ∧ (∃ st',
       connect_attempt duplicate_environment fresh_system
       = (Retry, st', [CLOSED; CLOSED]) ∧
       serial_ports st'
       = [Connected (Device (lit "/dev/ttyUSB0") (BoundClose 0) 2 3);
          Connected (Device (lit "/dev/ttyUSB1") (BoundClose 1) 2 3)] ∧
       0%nat ∈ open_handles st' ∧ 1%nat ∈ open_handles st').
Proof.
  split; [|split].
  - intros env [rows handles next]. unfold connect_attempt.
    cbn [found serial_ports open_handles next_handle].
    destruct (found env) as [addresses|];
      [|by rewrite on_error_keeps_handles].
    destruct (Z.of_nat (length addresses) >? MAX_NUMBER_OF_ARRAYS);
      [by rewrite on_error_keeps_handles|].
    pose proof (open_ports_keeps_handles (openable env) addresses handles next)
      as Hopen.
    destruct (open_ports (openable env) addresses handles next)
      as [[[opened unreached] handles'] next'].
    cbn [fst snd] in Hopen.
    destruct unreached; [|by rewrite on_error_keeps_handles].
    destruct (collect_results _) as [devices| |];
      [|by rewrite on_error_keeps_handles|done].
    destruct (lint_serial_port_values devices);
      [done|by rewrite on_error_keeps_handles].
  - eexists. split; [reflexivity|]. split; [reflexivity|].
    cbn [open_handles]. set_solver.
  - eexists. split.
    + unfold connect_attempt, duplicate_environment, fresh_system.
      cbn [found serial_ports open_handles next_handle openable streams
           length open_ports].
      change (Z.of_nat 2 >? MAX_NUMBER_OF_ARRAYS) with false. cbv iota.
      cbn [connection_threads].
      change (wait_for_arduino_connection (lit "/dev/ttyUSB0") (SerialObject 0)
                (list_byte_of_string "<Arduino is ready 2 3>"))
        with (Some (false, READY,
                Connected (Device (lit "/dev/ttyUSB0") (SerialObject 0) 2 3))).
      change (wait_for_arduino_connection (lit "/dev/ttyUSB1") (SerialObject 1)
                (list_byte_of_string "<Arduino is ready 2 3>"))
        with (Some (false, READY,
                Connected (Device (lit "/dev/ttyUSB1") (SerialObject 1) 2 3))).
      cbn [collect_results zip_with row_after_thread].
      rewrite lint_same_array_number. reflexivity.
    + split; [reflexivity|]. cbn [open_handles]. set_solver.
Qed.

(** * Further properties *)

(** ** lint_csv_file *)

Lemma lint_csv_file_lookup (pyint : pystr → option Z) (t : table)
    (r c : nat) :
  Z.of_nat r < MAX_NUMBER_OF_ARRAYS → Z.of_nat c < MAX_NUMBER_OF_MOTORS →
  ∃ row, lint_csv_file pyint t !! r = Some row ∧
         row !! c = Some (lint_cell pyint t r c).
Proof.
  intros Hr Hc. unfold lint_csv_file. eexists. split.
  - rewrite list_lookup_fmap, lookup_seq_lt by lia. reflexivity.
  - rewrite list_lookup_fmap, lookup_seq_lt by lia. reflexivity.
Qed.

Lemma lint_cell_cases (pyint : pystr → option Z) (t : table) (r c : nat) :
  lint_cell pyint t r c = lit "0"
  ∨ ∃ row n, t !! r = Some row ∧ row !! c = Some (lint_cell pyint t r c) ∧
             pyint (lint_cell pyint t r c) = Some n ∧ 1 <= n <= MAX_TURNS ∧
             lint_cell pyint t r c ≠ [].
Proof.
  unfold lint_cell. destruct (t !! r) as [row|] eqn:Hrow; [|by left].
  destruct (row !! c) as [cell|] eqn:Hcell; [|by left].
  destruct (pyint cell) as [n|] eqn:Hn; [|by left].
  destruct (Z.leb_spec n MAX_TURNS); [|by left].
  destruct (Z.gtb_spec n 0); [|by left].
  destruct cell as [|a cell]; [by left|]. cbn [andb].
  right. exists row, n. rewrite Hn. repeat split; [done..|lia|lia|done].
Qed.

Lemma lint_cell_of_zero (pyint : pystr → option Z) (t : table) (r c : nat)
    (row : list pystr) :
  t !! r = Some row → row !! c = Some (lit "0") →
  lint_cell pyint t r c = lit "0".
Proof.
  intros Hrow Hcell. unfold lint_cell. rewrite Hrow, Hcell.
  destruct (pyint (lit "0")) as [n|]; [|done].
  by destruct ((n <=? MAX_TURNS) && (n >? 0)).
Qed.

Lemma lint_cell_kept (pyint : pystr → option Z) (t : table) (r c : nat)
    (row : list pystr) (cell : pystr) (n : Z) :
  t !! r = Some row → row !! c = Some cell →
  pyint cell = Some n → 1 <= n <= MAX_TURNS → cell ≠ [] →
  lint_cell pyint t r c = cell.
Proof.
  intros Hrow Hcell Hn Hrange Hne. unfold lint_cell. rewrite Hrow, Hcell, Hn.
  destruct (Z.leb_spec n MAX_TURNS); [|lia].
  destruct (Z.gtb_spec n 0); [|lia]. by destruct cell.
Qed.

(** X1. Whatever table the file holds (no row, short rows, long rows,
    text that is no number), the table written back has
    [MAX_NUMBER_OF_ARRAYS] rows of [MAX_NUMBER_OF_MOTORS] cells, and each
    of its cells is either ["0"] or the cell at the same place of the
    file, which then converts to a number of turns in [1, MAX_TURNS]. *)
Theorem lint_csv_file_cells (pyint : pystr → option Z) (t : table) :
  Z.of_nat (length (lint_csv_file pyint t)) = MAX_NUMBER_OF_ARRAYS ∧
  Forall (fun row => Z.of_nat (length row) = MAX_NUMBER_OF_MOTORS)
    (lint_csv_file pyint t) ∧
  ∀ (r c : nat) (row : list pystr) (cell : pystr),
    lint_csv_file pyint t !! r = Some row → row !! c = Some cell →
    cell = lit "0"
    ∨ ∃ old n, t !! r = Some old ∧ old !! c = Some cell ∧
               pyint cell = Some n ∧ 1 <= n <= MAX_TURNS.
Proof.
  split; [|split].
  - unfold lint_csv_file. by rewrite length_map, length_seq.
  - unfold lint_csv_file. apply Forall_forall. intros row Hrow.
    apply list_elem_of_fmap in Hrow as (r & -> & _).
    by rewrite length_map, length_seq.
  - intros r c row cell Hrow Hcell.
    assert (Z.of_nat r < MAX_NUMBER_OF_ARRAYS) as Hr.
    { apply lookup_lt_Some in Hrow. unfold lint_csv_file in Hrow.
      rewrite length_map, length_seq in Hrow. lia. }
    assert (Z.of_nat c < MAX_NUMBER_OF_MOTORS) as Hc.
    { apply lookup_lt_Some in Hcell.
      unfold lint_csv_file in Hrow. rewrite list_lookup_fmap in Hrow.
      destruct (seq 0 (Z.to_nat MAX_NUMBER_OF_ARRAYS) !! r); [|done].
      apply (inj Some) in Hrow. subst row.
      rewrite length_map, length_seq in Hcell. lia. }
    destruct (lint_csv_file_lookup pyint t r c Hr Hc) as (row' & Hrow' & Hcell').
    assert (row' = row) as -> by congruence.
    assert (cell = lint_cell pyint t r c) as -> by congruence.
    destruct (lint_cell_cases pyint t r c)
      as [?|(old & n & Hold & Hcl & Hn & Hrange & _)]; [by left|].
    right. by exists old, n.
Qed.

Lemma lint_csv_file_again (pyint : pystr → option Z) (t : table) :
  lint_csv_file pyint (lint_csv_file pyint t) = lint_csv_file pyint t.
Proof.
  unfold lint_csv_file at 1 3.
  apply map_ext_in. intros r Hr. apply in_seq in Hr.
  apply map_ext_in. intros c Hc. apply in_seq in Hc.
  destruct (lint_csv_file_lookup pyint t r c) as (row & Hrow & Hcell);
    [lia..|].
  destruct (lint_cell_cases pyint t r c)
    as [Hz|(old & n & _ & _ & Hn & Hrange & Hne)].
  - rewrite Hz in *. by apply (lint_cell_of_zero _ _ _ _ row).
  - by apply (lint_cell_kept _ _ _ _ row _ n).
Qed.

(** X2. Linting is idempotent: linting the table a lint wrote gives that
    table again, whatever [int] accepts. *)
Theorem lint_csv_file_idempotent (pyint : pystr → option Z) (t : table) :
  lint_csv_file pyint (lint_csv_file pyint t) = lint_csv_file pyint t.
Proof. apply lint_csv_file_again. Qed.

Lemma table_values_Forall2 (pyint : pystr → option Z) (t : table) (g : grid) :
  table_values pyint t = Some g
  ↔ Forall2 (Forall2 (fun cell v => pyint cell = Some v)) t g.
Proof.
  unfold table_values. rewrite mapM_Some. split; intros H.
  - eapply Forall2_impl; [exact H|]. intros row vs. by rewrite mapM_Some.
  - eapply Forall2_impl; [exact H|]. intros row vs. by rewrite mapM_Some.
Qed.

Lemma lint_cell_value (pyint : pystr → option Z) (t : table) (r c : nat) :
  pyint (lit "0") = Some 0 →
  ∃ v, pyint (lint_cell pyint t r c) = Some v ∧ 0 <= v <= MAX_TURNS.
Proof.
  intros Hzero.
  destruct (lint_cell_cases pyint t r c)
    as [->|(old & n & _ & _ & Hn & Hrange & _)].
  - exists 0. split; [done|]. unfold MAX_TURNS. lia.
  - exists n. split; [done|lia].
Qed.

(** The value of a linted cell, [0] when it does not convert. *)
Lemma lint_csv_file_values (pyint : pystr → option Z) (t : table) :
  pyint (lit "0") = Some 0 →
  ∃ g, table_values pyint (lint_csv_file pyint t) = Some g ∧
       position_grid g ∧
       Forall (Forall (fun v => 0 <= v <= MAX_TURNS)) g.
Proof.
  intros Hzero.
  set (value := fun r c =>
         match pyint (lint_cell pyint t r c) with Some v => v | None => 0 end).
  exists (map (fun r => map (value r) (seq 0 (Z.to_nat MAX_NUMBER_OF_MOTORS)))
            (seq 0 (Z.to_nat MAX_NUMBER_OF_ARRAYS))).
  split; [|split].
  - apply table_values_Forall2. unfold lint_csv_file.
    apply Forall2_fmap, Forall_Forall2_diag, Forall_forall. intros r _.
    apply Forall2_fmap, Forall_Forall2_diag, Forall_forall. intros c _.
    unfold value. by destruct (lint_cell_value pyint t r c Hzero) as (v & -> & _).
  - split; [by rewrite length_map, length_seq|].
    apply Forall_forall. intros row Hrow.
    apply list_elem_of_fmap in Hrow as (r & -> & _).
    by rewrite length_map, length_seq.
  - apply Forall_forall. intros row Hrow.
    apply list_elem_of_fmap in Hrow as (r & -> & _).
    apply Forall_forall. intros v Hv.
    apply list_elem_of_fmap in Hv as (c & -> & _).
    unfold value. by destruct (lint_cell_value pyint t r c Hzero) as (v & -> & ?).
Qed.

(** ** The command string, on cells and on values *)

Lemma py_index_Forall2 {A B} (R : A → B → Prop) (l : list A) (k : list B)
    (i : Z) :
  Forall2 R l k → option_Forall2 R (py_index l i) (py_index k i).
Proof.
  intros H. pose proof (Forall2_length _ _ _ H) as Hlen.
  unfold py_index. rewrite <- Hlen.
  destruct (i <? 0); [destruct (- i <=? Z.of_nat (length l))|];
    try constructor; by apply Forall2_lookup.
Qed.

Lemma csv_columns_cells_values (pyint : pystr → option Z) (motors : Z)
    (current_row desired_row : list pystr) (current_values desired_values : list Z) :
  Forall2 (fun cell v => pyint cell = Some v) current_row current_values →
  Forall2 (fun cell v => pyint cell = Some v) desired_row desired_values →
  ∀ count_column command_string,
    csv_columns_cells pyint motors current_row count_column desired_row
      command_string
    = csv_columns motors current_values count_column desired_values
        command_string.
Proof.
  intros Hc Hd. induction Hd as [|cell v rest vs Hv _ IH];
    intros count_column command_string; [done|].
  cbn [csv_columns_cells csv_columns].
  destruct (Z.of_nat count_column <? motors); [|apply IH].
  pose proof (proj1 (Forall2_lookup _ _ _) Hc count_column) as Hlook.
  destruct Hlook as [c cv Hcv|]; [|done].
  cbn [mbind option_bind]. rewrite Hcv, Hv. cbn [mbind option_bind].
  apply IH.
Qed.

Lemma csv_rows_cells_values (pyint : pystr → option Z)
    (desired current : table) (desired_values current_values : grid)
    (serial_ports : list device) :
  table_values pyint desired = Some desired_values →
  table_values pyint current = Some current_values →
  ∀ command_string,
    csv_rows_cells pyint desired current serial_ports command_string
    = csv_rows desired_values current_values serial_ports command_string.
Proof.
  intros Hd Hc. apply table_values_Forall2 in Hd, Hc.
  induction serial_ports as [|d rest IH]; intros command_string; [done|].
  cbn [csv_rows_cells csv_rows].
  destruct (py_index_Forall2 _ _ _ (array_number d) Hd)
    as [desired_row desired_vs Hdr|]; [|done].
  destruct (py_index_Forall2 _ _ _ (array_number d) Hc)
    as [current_row current_vs Hcr|]; [|done].
  cbn [mbind option_bind].
  rewrite (csv_columns_cells_values _ _ _ _ _ _ Hcr Hdr).
  destruct (csv_columns _ _ _ _ _); [|done].
  cbn [mbind option_bind]. apply IH.
Qed.

Lemma csv_command_string_cells_values (pyint : pystr → option Z)
    (desired current : table) (desired_values current_values : grid)
    (serial_ports : list device) :
  table_values pyint desired = Some desired_values →
  table_values pyint current = Some current_values →
  csv_command_string_cells pyint desired current serial_ports
  = csv_command_string desired_values current_values serial_ports.
Proof.
  intros Hd Hc. unfold csv_command_string_cells, csv_command_string.
  by rewrite (csv_rows_cells_values _ _ _ _ _ _ Hd Hc).
Qed.

(** X4. Converting a cell where the loops use it, as the source does,
    gives the command string computed on the values of the cells, whenever
    every cell of both tables converts: the value of a cell is all the
    command string depends on. *)
Theorem csv_command_string_on_values (pyint : pystr → option Z)
    (desired current : table) (desired_values current_values : grid)
    (serial_ports : list device) :
  table_values pyint desired = Some desired_values →
  table_values pyint current = Some current_values →
  csv_command_string_cells pyint desired current serial_ports
  = csv_command_string desired_values current_values serial_ports.
Proof. apply csv_command_string_cells_values. Qed.

Lemma csv_command_string_on_values_witness :
  csv_command_string_cells decimal_int
    [[lit "3"; lit "0"]] [[lit "5"; lit "0"]]
    [Device (lit "/dev/ttyUSB0") (SerialObject 0) 0 2]
  = csv_command_string [[3; 0]] [[5; 0]]
      [Device (lit "/dev/ttyUSB0") (SerialObject 0) 0 2].
Proof.
  apply (csv_command_string_on_values decimal_int
           [[lit "3"; lit "0"]] [[lit "5"; lit "0"]] [[3; 0]] [[5; 0]]).
  - reflexivity.
  - reflexivity.
Defined.

(** ** The two modes, end to end *)

Lemma row_instructions_bounded (motors : Z) (current_row desired_row : list Z) :
  Forall (fun v => 0 <= v <= MAX_TURNS) current_row →
  Forall (fun v => 0 <= v <= MAX_TURNS) desired_row →
  Forall (fun i => 0 <= magnitude i <= MAX_TURNS)
    (row_instructions motors current_row desired_row).
Proof.
  intros Hc Hd. apply Forall_lookup. intros s i Hi.
  unfold row_instructions in Hi.
  apply lookup_zip_with_Some in Hi as (c & t & -> & Hcs & Hts).
  apply lookup_take_Some in Hcs as [Hcs _].
  apply lookup_take_Some in Hts as [Hts _].
  pose proof (Forall_lookup_1 _ _ _ _ Hc Hcs) as Hcr.
  pose proof (Forall_lookup_1 _ _ _ _ Hd Hts) as Htr.
  cbv beta in Hcr, Htr. unfold instruction_of. cbn [magnitude]. lia.
Qed.

Lemma row_instructions_same (motors : Z) (row : list Z) :
  (Z.to_nat motors ≤ length row)%nat →
  row_instructions motors row row
  = replicate (Z.to_nat motors) (Instruction DirNone 0).
Proof.
  intros Hlen. apply list_eq. intros s. unfold row_instructions.
  rewrite lookup_zip_with.
  destruct (Nat.lt_ge_cases s (Z.to_nat motors)) as [Hs|Hs].
  - rewrite lookup_take_lt by done.
    destruct (lookup_lt_is_Some_2 row s) as [v Hv]; [lia|].
    rewrite Hv. cbn [mbind option_bind].
    rewrite lookup_replicate_2 by done.
    unfold instruction_of. by rewrite Z.sub_diag.
  - rewrite lookup_take_ge by done. cbn [mbind option_bind].
    symmetry. apply lookup_replicate_None. lia.
Qed.

Lemma row_instructions_from_zero (motors : Z) (current_row desired_row : list Z)
    (s : nat) (t : Z) :
  Forall (fun v => v = 0) current_row →
  (length desired_row ≤ length current_row)%nat →
  (s < Z.to_nat motors)%nat → desired_row !! s = Some t → 0 <= t →
  row_instructions motors current_row desired_row !! s
  = Some (if t =? 0 then Instruction DirNone 0 else Instruction Down t).
Proof.
  intros Hzero Hlen Hs Ht Hpos.
  destruct (lookup_lt_is_Some_2 current_row s) as [c Hc].
  { apply lookup_lt_Some in Ht. lia. }
  pose proof (Forall_lookup_1 _ _ _ _ Hzero Hc) as ->.
  rewrite (row_instructions_lookup _ _ _ _ 0 t) by done.
  unfold instruction_of. f_equal.
  destruct (Z.eqb_spec t 0) as [->|Hne]; [done|].
  destruct (Z.ltb_spec (0 - t) 0); [|lia]. f_equal. lia.
Qed.

Lemma lint_zero_table (pyint : pystr → option Z) :
  lint_csv_file pyint current_state_list_zero_cells
  = replicate (Z.to_nat MAX_NUMBER_OF_ARRAYS)
      (replicate (Z.to_nat MAX_NUMBER_OF_MOTORS) (lit "0")).
Proof.
  assert (∀ r c, lint_cell pyint current_state_list_zero_cells r c = lit "0")
    as Hcell.
  { intros r c.
    destruct (lint_cell_cases pyint current_state_list_zero_cells r c)
      as [?|(row & n & Hrow & Hc & _)]; [done|].
    unfold current_state_list_zero_cells in Hrow.
    apply lookup_replicate in Hrow as [-> _].
    by apply lookup_replicate in Hc as [-> _]. }
  unfold lint_csv_file. apply list_eq. intros r.
  rewrite list_lookup_fmap.
  destruct (Nat.lt_ge_cases r (Z.to_nat MAX_NUMBER_OF_ARRAYS)) as [Hr|Hr].
  - rewrite lookup_seq_lt, lookup_replicate_2 by done. cbn [fmap option_fmap option_map].
    f_equal. apply list_eq. intros c. rewrite list_lookup_fmap.
    destruct (Nat.lt_ge_cases c (Z.to_nat MAX_NUMBER_OF_MOTORS)) as [Hc|Hc].
    + rewrite lookup_seq_lt, lookup_replicate_2 by done.
      cbn [fmap option_fmap option_map plus]. by rewrite Hcell.
    + rewrite lookup_seq_ge by done. symmetry.
      apply lookup_replicate_None. lia.
  - rewrite lookup_seq_ge by done. symmetry.
    apply lookup_replicate_None. lia.
Qed.

Lemma zero_table_values (pyint : pystr → option Z) :
  pyint (lit "0") = Some 0 →
  table_values pyint
    (replicate (Z.to_nat MAX_NUMBER_OF_ARRAYS)
       (replicate (Z.to_nat MAX_NUMBER_OF_MOTORS) (lit "0")))
  = Some (replicate (Z.to_nat MAX_NUMBER_OF_ARRAYS)
            (replicate (Z.to_nat MAX_NUMBER_OF_MOTORS) 0)).
Proof.
  intros Hzero. apply table_values_Forall2.
  apply Forall2_replicate. by apply Forall2_replicate.
Qed.

Lemma csv_mode_on_values (pyint : pystr → option Z) (devices : list device)
    (fs : files) (desired_values current_values : grid) :
  table_values pyint (lint_csv_file pyint (desired_state fs))
  = Some desired_values →
  table_values pyint (lint_csv_file pyint (current_state fs))
  = Some current_values →
  position_grid desired_values → position_grid current_values →
  lint_serial_port_values devices = Linted → devices ≠ [] →
  csv_mode pyint devices fs
  = (Files (lint_csv_file pyint (desired_state fs))
       (lint_csv_file pyint (desired_state fs)),
     Executed_all
       (imap (fun j text => Worker j text)
          (map frame_text
             (map (device_instructions desired_values current_values)
                devices)))).
Proof.
  intros Hd Hc Hgd Hgc Hlint Hne. unfold csv_mode.
  rewrite (csv_command_string_cells_values _ _ _ _ _ _ Hd Hc).
  destruct (csv_workers _ _ _ Hgd Hgc Hlint Hne) as (cs & -> & ->). done.
Qed.

(** X5. Mode 1 on a validated, non-empty device list never raises,
    whatever the two files hold: both are linted, every device gets its
    worker, the frame of a worker holds one instruction per motor of its
    device, no instruction asks for more than [MAX_TURNS] turns, and
    afterwards both files hold the linted desired state. *)
Theorem csv_mode_runs (pyint : pystr → option Z) (devices : list device)
    (fs : files) :
  pyint (lit "0") = Some 0 →
  lint_serial_port_values devices = Linted → devices ≠ [] →
  ∃ ws,
    csv_mode pyint devices fs
    = (Files (lint_csv_file pyint (desired_state fs))
         (lint_csv_file pyint (desired_state fs)),
       Executed_all ws) ∧
    length ws = length devices ∧
    ∀ i d, devices !! i = Some d →
      ∃ instructions,
        ws !! i = Some (Worker i (frame_text instructions)) ∧
        length instructions = Z.to_nat (motor_number d) ∧
        Forall (fun x => 0 <= magnitude x <= MAX_TURNS) instructions.
Proof.
  intros Hzero Hlint Hne.
  destruct (lint_csv_file_values pyint (desired_state fs) Hzero)
    as (gd & Hd & Hgd & Hbd).
  destruct (lint_csv_file_values pyint (current_state fs) Hzero)
    as (gc & Hc & Hgc & Hbc).
  eexists. split; [by apply (csv_mode_on_values _ _ _ gd gc)|].
  split; [by rewrite length_imap, !length_map|].
  intros i d Hi. exists (device_instructions gd gc d).
  split; [by rewrite list_lookup_imap, !list_lookup_fmap, Hi|].
  pose proof (proj1 (lint_linted_iff devices) Hlint) as [_ Hall].
  pose proof (Forall_lookup_1 _ _ _ _ Hall Hi) as [Ha Hm].
  destruct (position_grid_row _ _ Hgd Ha) as (dr & Hdr & Hdl).
  destruct (position_grid_row _ _ Hgc Ha) as (cr & Hcr & Hcl).
  unfold device_instructions. rewrite Hcr, Hdr. split.
  - apply row_instructions_length; lia.
  - apply row_instructions_bounded.
    + unfold py_index in Hcr.
      destruct (Z.ltb_spec (array_number d) 0); [lia|].
      by apply (Forall_lookup_1 _ _ _ _ Hbc Hcr).
    + unfold py_index in Hdr.
      destruct (Z.ltb_spec (array_number d) 0); [lia|].
      by apply (Forall_lookup_1 _ _ _ _ Hbd Hdr).
Qed.


Lemma csv_mode_runs_witness :
  ∃ ws,
    csv_mode decimal_int two_devices
      (Files [[lit "3"; lit "x"; lit "12"]] [])
    = (Files (lint_csv_file decimal_int [[lit "3"; lit "x"; lit "12"]])
         (lint_csv_file decimal_int [[lit "3"; lit "x"; lit "12"]]),
       Executed_all ws) ∧
    length ws = length two_devices ∧
    ∀ i d, two_devices !! i = Some d →
      ∃ instructions,
        ws !! i = Some (Worker i (frame_text instructions)) ∧
        length instructions = Z.to_nat (motor_number d) ∧
        Forall (fun x => 0 <= magnitude x <= MAX_TURNS) instructions.
Proof.
  apply (csv_mode_runs decimal_int two_devices
           (Files [[lit "3"; lit "x"; lit "12"]] [])).
  - reflexivity.
  - vm_compute. reflexivity.
  - discriminate.
Defined.

Lemma device_instructions_same (g : grid) (d : device) :
  position_grid g → connected_device d →
  device_instructions g g d
  = replicate (Z.to_nat (motor_number d)) (Instruction DirNone 0).
Proof.
  intros Hg [Ha Hm].
  destruct (position_grid_row _ _ Hg Ha) as (row & Hrow & Hlen).
  unfold device_instructions. rewrite Hrow.
  apply row_instructions_same. lia.
Qed.

(** X6. Running mode 1 again right after a run of mode 1 moves nothing:
    the files are left as the first run left them and every worker is
    handed [None,0] for each motor of its device. *)
Theorem csv_mode_twice (pyint : pystr → option Z) (devices : list device)
    (fs : files) :
  pyint (lit "0") = Some 0 →
  lint_serial_port_values devices = Linted → devices ≠ [] →
  csv_mode pyint devices (csv_mode pyint devices fs).1
  = ((csv_mode pyint devices fs).1,
     Executed_all
       (imap (fun j d =>
                Worker j (frame_text
                            (replicate (Z.to_nat (motor_number d))
                               (Instruction DirNone 0))))
          devices)).
Proof.
  intros Hzero Hlint Hne.
  destruct (lint_csv_file_values pyint (desired_state fs) Hzero)
    as (g & Hg & Hpg & _).
  destruct (lint_csv_file_values pyint (current_state fs) Hzero)
    as (gc & Hgc & Hpgc & _).
  rewrite (csv_mode_on_values pyint devices fs g gc) by done.
  cbn [fst].
  rewrite (csv_mode_on_values pyint devices _ g g);
    cbn [desired_state current_state];
    rewrite ?lint_csv_file_again; try done.
  do 2 f_equal. apply list_eq. intros i.
  rewrite !list_lookup_imap, !list_lookup_fmap.
  destruct (devices !! i) as [d|] eqn:Hi; [|done].
  cbn [fmap option_fmap option_map]. do 3 f_equal.
  apply device_instructions_same; [done|].
  pose proof (proj1 (lint_linted_iff devices) Hlint) as [_ Hall].
  by apply (Forall_lookup_1 _ _ _ _ Hall Hi).
Qed.

Lemma csv_mode_twice_witness :
  csv_mode decimal_int two_devices
    (csv_mode decimal_int two_devices
       (Files [[lit "3"; lit "x"; lit "12"]] [])).1
  = ((csv_mode decimal_int two_devices
        (Files [[lit "3"; lit "x"; lit "12"]] [])).1,
     Executed_all
       (imap (fun j d =>
                Worker j (frame_text
                            (replicate (Z.to_nat (motor_number d))
                               (Instruction DirNone 0))))
          two_devices)).
Proof.
  apply (csv_mode_twice decimal_int two_devices
           (Files [[lit "3"; lit "x"; lit "12"]] [])).
  - reflexivity.
  - vm_compute. reflexivity.
  - discriminate.
Defined.

(** X7. Mode 1 after a reset.  The reset leaves a table of
    [MAX_NUMBER_OF_MOTORS] rows of [MAX_NUMBER_OF_ARRAYS] zeros as the
    current state; the lint of mode 1 turns it into the position grid of
    zeros, so every device is told to go down by the desired number of
    turns of each of its motors ([None,0] where that is zero). *)
Theorem csv_mode_after_reset (pyint : pystr → option Z)
    (devices : list device) (fs : files) :
  pyint (lit "0") = Some 0 →
  lint_serial_port_values devices = Linted → devices ≠ [] →
  ∃ desired_values ws,
    table_values pyint (lint_csv_file pyint (desired_state fs))
    = Some desired_values ∧
    csv_mode pyint devices (reset_mode pyint devices fs).1
    = (Files (lint_csv_file pyint (desired_state fs))
         (lint_csv_file pyint (desired_state fs)),
       Executed_all ws) ∧
    ∀ i d, devices !! i = Some d →
      ∃ instructions,
        ws !! i = Some (Worker i (frame_text instructions)) ∧
        length instructions = Z.to_nat (motor_number d) ∧
        ∀ (s : nat) (t : Z),
          Z.of_nat s < motor_number d →
          cell desired_values (array_number d) s = Some t →
          instructions !! s
          = Some (if t =? 0 then Instruction DirNone 0
                  else Instruction Down t).
Proof.
  intros Hzero Hlint Hne.
  destruct (lint_csv_file_values pyint (desired_state fs) Hzero)
    as (g & Hg & Hpg & Hbg).
  set (zeros := replicate (Z.to_nat MAX_NUMBER_OF_ARRAYS)
                  (replicate (Z.to_nat MAX_NUMBER_OF_MOTORS) 0)).
  assert (position_grid zeros) as Hpz.
  { split; [unfold zeros; by rewrite length_replicate|].
    apply Forall_replicate. by rewrite length_replicate. }
  assert ((reset_mode pyint devices fs).1
          = Files (lint_csv_file pyint (desired_state fs))
              current_state_list_zero_cells) as ->.
  { unfold reset_mode. by destruct (execute_commands _ _). }
  exists g. eexists. split; [done|]. split.
  - rewrite (csv_mode_on_values pyint devices _ g zeros);
      cbn [desired_state current_state];
      rewrite ?lint_csv_file_again, ?lint_zero_table; try done.
    by apply zero_table_values.
  - intros i d Hi. exists (device_instructions g zeros d).
    split; [by rewrite list_lookup_imap, !list_lookup_fmap, Hi|].
    pose proof (proj1 (lint_linted_iff devices) Hlint) as [_ Hall].
    pose proof (Forall_lookup_1 _ _ _ _ Hall Hi) as [Ha Hm].
    destruct (position_grid_row _ _ Hpg Ha) as (dr & Hdr & Hdl).
    destruct (position_grid_row _ _ Hpz Ha) as (zr & Hzr & Hzl).
    unfold device_instructions. rewrite Hzr, Hdr.
    split; [apply row_instructions_length; lia|].
    intros s t Hs Ht. unfold cell in Ht. rewrite Hdr in Ht.
    cbn [mbind option_bind] in Ht.
    apply row_instructions_from_zero; [|lia|lia|done|].
    + unfold py_index in Hzr.
      destruct (Z.ltb_spec (array_number d) 0); [lia|].
      unfold zeros in Hzr. apply lookup_replicate in Hzr as [-> _].
      by apply Forall_replicate.
    + unfold py_index in Hdr.
      destruct (Z.ltb_spec (array_number d) 0); [lia|].
      pose proof (Forall_lookup_1 _ _ _ _ Hbg Hdr) as Hrow.
      pose proof (Forall_lookup_1 _ _ _ _ Hrow Ht) as Hcell.
      cbv beta in Hcell. lia.
Qed.

Lemma csv_mode_after_reset_witness :
  ∃ desired_values ws,
    table_values decimal_int
      (lint_csv_file decimal_int [[lit "3"; lit "x"; lit "12"]])
    = Some desired_values ∧
    csv_mode decimal_int two_devices
      (reset_mode decimal_int two_devices
         (Files [[lit "3"; lit "x"; lit "12"]] [])).1
    = (Files (lint_csv_file decimal_int [[lit "3"; lit "x"; lit "12"]])
         (lint_csv_file decimal_int [[lit "3"; lit "x"; lit "12"]]),
       Executed_all ws) ∧
    ∀ i d, two_devices !! i = Some d →
      ∃ instructions,
        ws !! i = Some (Worker i (frame_text instructions)) ∧
        length instructions = Z.to_nat (motor_number d) ∧
        ∀ (s : nat) (t : Z),
          Z.of_nat s < motor_number d →
          cell desired_values (array_number d) s = Some t →
          instructions !! s
          = Some (if t =? 0 then Instruction DirNone 0
                  else Instruction Down t).
Proof.
  apply (csv_mode_after_reset decimal_int two_devices
           (Files [[lit "3"; lit "x"; lit "12"]] [])).
  - reflexivity.
  - vm_compute. reflexivity.
  - discriminate.
Defined.

(** ** execute_commands, piece by piece *)

Lemma split_not_nil (sep : ascii) (s : pystr) : split sep s ≠ [].
Proof.
  destruct s as [|c s]; [done|]. simpl.
  destruct (Ascii.eqb c sep); [done|]. by destruct (split sep s).
Qed.

(** X9. Whatever the text, the [j]-th thread started is handed the [j]-th
    piece of the text between semicolons, for port [j]; the pieces beyond
    the number of ports get no thread; and all threads are joined exactly
    when there are no more pieces than ports. *)
Theorem execute_commands_pieces (devices : list device) (text : pystr) :
  started_workers (execute_commands devices text)
  = imap (fun j piece => Worker j piece)
      (take (length devices) (split ";" text)) ∧
  ((length (split ";" text) ≤ length devices)%nat ↔
   ∃ ws, execute_commands devices text = Joined ws).
Proof.
  split.
  - unfold execute_commands. rewrite create_threads_started.
    by rewrite Nat.sub_0_r.
  - unfold execute_commands. split.
    + intros Hfit. eexists. by rewrite create_threads_fit.
    + intros [ws Hws].
      destruct (Nat.le_gt_cases (length (split ";" text)) (length devices))
        as [?|Hover]; [done|].
      destruct (create_threads_overflow (length devices) (split ";" text) 0 [])
        as [ws' Hws']; [lia|]. congruence.
Qed.

(** X10. With no serial port in the table, [execute_commands] raises
    IndexError on every text, the empty one included, before any thread is
    started: splitting a text never gives an empty list of pieces. *)
Theorem execute_commands_without_ports (text : pystr) :
  execute_commands [] text = ThreadIndexError [].
Proof.
  unfold execute_commands.
  pose proof (split_not_nil ";" text) as Hne.
  by destruct (split ";" text).
Qed.

(** X8. In a reset of a validated device list, the worker of every
    device is handed the frame of one [Up,100] per motor the device owns,
    whatever the two files hold. *)
Theorem reset_hands_up_100 (devices : list device) (i : nat) (d : device) :
  lint_serial_port_values devices = Linted → devices !! i = Some d →
  reset_worker_text devices i
  = Some (frame_text
            (replicate (Z.to_nat (motor_number d)) (Instruction Up 100))).
Proof. apply reset_worker_text_spec. Qed.

Lemma reset_hands_up_100_witness :
  reset_worker_text two_devices 1
  = Some (frame_text (replicate (Z.to_nat 3) (Instruction Up 100))).
Proof.
  apply (reset_hands_up_100 two_devices 1
           (Device (lit "/dev/ttyUSB1") (SerialObject 1) 1 3)).
  - vm_compute. reflexivity.
  - reflexivity.
Defined.

(** ** What a worker writes, read back *)

Lemma plain_char_byte (c : ascii) :
  plain_char c = true →
  encode_char c = [byte_of_ascii c] ∧ ascii_byte (byte_of_ascii c) ∧
  byte_of_ascii c ≠ x3c ∧ byte_of_ascii c ≠ x3e.
Proof.
  unfold plain_char. intros Hp.
  apply andb_prop in Hp as [Hp Hend]. apply andb_prop in Hp as [Hlt Hstart].
  apply Z.ltb_lt in Hlt. apply negb_true_iff, Z.eqb_neq in Hstart, Hend.
  pose proof (ord_of_byte (byte_of_ascii c)) as Hord.
  rewrite ascii_of_byte_of_ascii in Hord.
  split; [|split; [|split]].
  - unfold encode_char. by destruct (Z.ltb_spec (ord c) 128); [|lia].
  - unfold ascii_byte. lia.
  - intros Heq. rewrite Heq in Hord. by apply Hstart.
  - intros Heq. rewrite Heq in Hord. by apply Hend.
Qed.

Lemma encode_plain (s : pystr) :
  Forall (fun c => plain_char c = true) s →
  encode s = map byte_of_ascii s ∧
  Forall ascii_byte (map byte_of_ascii s) ∧
  (x3c ∉ map byte_of_ascii s) ∧ (x3e ∉ map byte_of_ascii s).
Proof.
  induction 1 as [|c s Hc _ (IH1 & IH2 & IH3 & IH4)].
  - repeat split; [constructor|apply not_elem_of_nil..].
  - destruct (plain_char_byte c Hc) as (He & Ha & Hs & Hd).
    unfold encode in *. cbn [map concat]. rewrite He, IH1.
    repeat split; [by constructor|by apply not_elem_of_cons..].
Qed.

Lemma plain_uint (d : Decimal.uint) :
  Forall (fun c => plain_char c = true)
    (list_ascii_of_string (NilEmpty.string_of_uint d)).
Proof. induction d; simpl; by constructor. Qed.

Lemma plain_str (n : Z) : Forall (fun c => plain_char c = true) (str n).
Proof.
  unfold str, NilZero.string_of_int, NilZero.string_of_uint.
  destruct (Z.to_int n) as [d|d]; destruct d; simpl;
    repeat (constructor; [done|]); try constructor; apply plain_uint.
Qed.

Lemma plain_join (pieces : list pystr) :
  Forall (Forall (fun c => plain_char c = true)) pieces →
  Forall (fun c => plain_char c = true) (join (lit ",") pieces).
Proof.
  induction 1 as [|p ps Hp Hps IH]; [constructor|].
  destruct ps as [|q ps]; [done|].
  change (join (lit ",") (p :: q :: ps))
    with (p ++ lit "," ++ join (lit ",") (q :: ps)).
  apply Forall_app. split; [done|]. apply Forall_app. split; [|done].
  by repeat constructor.
Qed.

Lemma plain_instructions (instructions : list instruction) :
  Forall (fun c => plain_char c = true)
    (join (lit ",") (map instruction_text instructions)).
Proof.
  apply plain_join, Forall_map, Forall_forall. intros [d n] _.
  unfold instruction_text. cbn [instr_direction magnitude].
  apply Forall_app. split; [destruct d; by repeat constructor|].
  apply Forall_app. split; [by repeat constructor|apply plain_str].
Qed.

Lemma map_ascii_of_byte_of_ascii (s : pystr) :
  map ascii_of_byte (map byte_of_ascii s) = s.
Proof.
  induction s as [|c s IH]; [done|].
  cbn [map]. by rewrite ascii_of_byte_of_ascii, IH.
Qed.

Lemma filter_no_start (body : list byte) :
  x3c ∉ body → filter (fun b => b ≠ x3c) body = body.
Proof.
  induction body as [|b body IH]; [done|]. intros Hn.
  apply not_elem_of_cons in Hn as [Hne Hn].
  rewrite filter_cons, decide_True by congruence. by rewrite IH.
Qed.

Lemma recieve_after_start (stream : list byte) :
  recieve_from_arduino (x3c :: stream) = save_data stream "<"%char [].
Proof. reflexivity. Qed.

Lemma recieve_plain_frame (payload : pystr) (rest : list byte) :
  Forall (fun c => plain_char c = true) payload →
  recieve_from_arduino (encode (lit "<" ++ payload ++ lit ">") ++ rest)
  = Recieved payload rest.
Proof.
  intros Hplain. destruct (encode_plain payload Hplain) as (He & Ha & Hs & Hd).
  unfold encode in *. rewrite !map_app, !concat_app, He.
  change (concat (map encode_char (lit "<"))) with [x3c].
  change (concat (map encode_char (lit ">"))) with [x3e].
  rewrite <- !app_assoc. cbn [app].
  rewrite recieve_after_start, save_data_frame by done.
  rewrite filter_no_start by done. by rewrite map_ascii_of_byte_of_ascii.
Qed.

(** X12. The bytes a worker writes for a frame of instructions are one
    well-formed frame: read back with [recieve_from_arduino] they give the
    instructions joined by commas, without the markers, and leave what
    follows unread. *)
Theorem written_frame_reads_back (instructions : list instruction)
    (incoming rest : list byte) :
  recieve_from_arduino
    ((move_arrays (frame_text instructions) incoming).1 ++ rest)
  = Recieved (join (lit ",") (map instruction_text instructions)) rest.
Proof.
  cbn [move_arrays fst]. unfold frame_text.
  apply recieve_plain_frame, plain_instructions.
Qed.

(** ** Only complete frames are returned *)

Lemma decode_Some (b : byte) (c : ascii) :
  decode b = Some c → ascii_byte b ∧ c = ascii_of_byte b.
Proof.
  unfold decode, ascii_byte.
  destruct (N.ltb_spec (Byte.to_N b) 128); [|done]. by intros [= <-].
Qed.

Lemma save_data_inv (stream : list byte) :
  ∀ (recieve_char : ascii) (recieve_string msg : pystr) (rest : list byte),
    ord recieve_char ≠ END_MARKER →
    save_data stream recieve_char recieve_string = Recieved msg rest →
    ∃ body,
      stream = body ++ x3e :: rest ∧ Forall ascii_byte body ∧ (x3e ∉ body) ∧
      msg = recieve_string
            ++ (if ord recieve_char =? START_MARKER then [] else [recieve_char])
            ++ map ascii_of_byte (filter (fun b => b ≠ x3c) body).
Proof.
  induction stream as [|b stream IH]; intros c acc msg rest Hc Hsave.
  - simpl in Hsave. by destruct (Z.eqb_spec (ord c) END_MARKER).
  - cbn [save_data] in Hsave.
    destruct (Z.eqb_spec (ord c) END_MARKER) as [?|_]; [done|].
    destruct (decode b) as [c'|] eqn:Hdec; [|done].
    apply decode_Some in Hdec as [Hb ->].
    destruct (Z.eq_dec (ord (ascii_of_byte b)) END_MARKER) as [Hend|Hend].
    + rewrite save_data_end in Hsave by done. injection Hsave as <- <-.
      apply (ord_is_marker b x3e) in Hend. subst b.
      exists []. repeat split; [constructor|apply not_elem_of_nil|].
      destruct (ord c =? START_MARKER); by rewrite ?app_nil_r.
    + apply IH in Hsave as (body & -> & Hascii & Hno & ->); [|done].
      exists (b :: body). split; [done|]. split; [by constructor|]. split.
      * apply not_elem_of_cons. split; [|done]. intros <-. by apply Hend.
      * rewrite filter_cons.
        destruct (Z.eqb_spec (ord (ascii_of_byte b)) START_MARKER) as [Hs|Hs].
        -- apply (ord_is_marker b x3c) in Hs. subst b.
           rewrite decide_False by (intros Hn; by apply Hn).
           destruct (ord c =? START_MARKER); by rewrite <- ?app_assoc.
        -- rewrite decide_True by (intros ->; by apply Hs).
           destruct (ord c =? START_MARKER); by rewrite <- ?app_assoc.
Qed.

Lemma recieve_from_arduino_inv (stream : list byte) :
  ∀ (msg : pystr) (rest : list byte),
    recieve_from_arduino stream = Recieved msg rest →
    ∃ noise payload,
      stream = noise ++ [x3c] ++ payload ++ [x3e] ++ rest ∧
      Forall ascii_byte (noise ++ payload) ∧
      (x3c ∉ noise) ∧ (x3e ∉ payload) ∧
      msg = map ascii_of_byte (filter (fun b => b ≠ x3c) payload).
Proof.
  induction stream as [|b stream IH]; intros msg rest Hrec; [done|].
  cbn [recieve_from_arduino] in Hrec.
  destruct (decode b) as [c|] eqn:Hdec; [|done].
  apply decode_Some in Hdec as [Hb ->].
  destruct (Z.eqb_spec (ord (ascii_of_byte b)) START_MARKER) as [Hs|Hs].
  - apply (ord_is_marker b x3c) in Hs. subst b.
    apply save_data_inv in Hrec as (body & -> & Hascii & Hno & ->); [|done].
    exists [], body. repeat split; [done|apply not_elem_of_nil|done].
  - apply IH in Hrec as (noise & payload & -> & Hascii & Hn & Hp & ->).
    exists (b :: noise), payload. split; [done|].
    split; [by constructor|]. split; [|done].
    apply not_elem_of_cons. split; [|done]. intros <-. by apply Hs.
Qed.

(** X13. [recieve_from_arduino] never returns a partial frame: when it
    returns, the bytes consumed are noise without a start marker, a start
    marker, a payload without an end marker and an end marker, all of them
    below 128; the string returned is that payload without its start
    markers, and the bytes after the end marker are left for the next
    read. *)
Theorem recieve_from_arduino_complete (stream rest : list byte) (msg : pystr) :
  recieve_from_arduino stream = Recieved msg rest →
  ∃ noise payload,
    stream = noise ++ [x3c] ++ payload ++ [x3e] ++ rest ∧
    Forall ascii_byte (noise ++ payload) ∧
    (x3c ∉ noise) ∧ (x3e ∉ payload) ∧
    msg = map ascii_of_byte (filter (fun b => b ≠ x3c) payload).
Proof. apply recieve_from_arduino_inv. Qed.

Lemma recieve_from_arduino_complete_witness :
  ∃ noise payload,
    [x61; x3c; x62; x3c; x63; x3e; x64]
    = noise ++ [x3c] ++ payload ++ [x3e] ++ [x64] ∧
    Forall ascii_byte (noise ++ payload) ∧
    (x3c ∉ noise) ∧ (x3e ∉ payload) ∧
    lit "bc" = map ascii_of_byte (filter (fun b => b ≠ x3c) payload).
Proof.
  apply (recieve_from_arduino_complete
           [x61; x3c; x62; x3c; x63; x3e; x64] [x64] (lit "bc")).
  reflexivity.
Defined.

(** ** The handshake loop *)

Lemma recieve_from_arduino_shrinks (stream rest : list byte) (msg : pystr) :
  recieve_from_arduino stream = Recieved msg rest →
  (length rest < length stream)%nat.
Proof.
  intros Hrec.
  apply recieve_from_arduino_inv in Hrec as (noise & payload & -> & _).
  rewrite !length_app. simpl. lia.
Qed.

Lemma handshake_loop_fuel (fuel : nat) :
  ∀ stream, (length stream < fuel)%nat →
    handshake_loop fuel stream = handshake_loop (S (length stream)) stream.
Proof.
  induction fuel as [fuel IH] using lt_wf_ind. intros stream Hfuel.
  destruct fuel as [|fuel]; [lia|]. cbn [handshake_loop].
  destruct (recieve_from_arduino stream) as [msg rest| |] eqn:Hrec; [|done..].
  destruct (find msg (lit "Arduino is ready") =? -1); [|done].
  apply recieve_from_arduino_shrinks in Hrec.
  rewrite (IH fuel) by lia. rewrite (IH (length stream)) by lia. done.
Qed.

(** X15. A frame without the words [Arduino is ready] is dropped by the
    handshake and the wait goes on with the bytes that follow it: the
    outcome is the outcome on those bytes.  The timeout only ever comes
    from a read that blocks. *)
Theorem handshake_skips_other_frames (stream rest : list byte) (msg : pystr) :
  recieve_from_arduino stream = Recieved msg rest →
  find msg (lit "Arduino is ready") = -1 →
  wait_for_arduino_connection_execute stream
  = wait_for_arduino_connection_execute rest.
Proof.
  intros Hrec Hfind. unfold wait_for_arduino_connection_execute.
  cbn [handshake_loop]. rewrite Hrec, Hfind. cbn [Z.eqb].
  apply recieve_from_arduino_shrinks in Hrec.
  apply handshake_loop_fuel. lia.
Qed.

Lemma handshake_skips_other_frames_witness :
  wait_for_arduino_connection_execute
    (list_byte_of_string "<booting><Arduino is ready 2 7>")
  = wait_for_arduino_connection_execute
      (list_byte_of_string "<Arduino is ready 2 7>").
Proof.
  apply (handshake_skips_other_frames
           (list_byte_of_string "<booting><Arduino is ready 2 7>")
           (list_byte_of_string "<Arduino is ready 2 7>")
           (lit "booting")).
  - reflexivity.
  - reflexivity.
Defined.

(** ** Numbers in the handshake reply *)

Lemma int_uint_acc (d : Decimal.uint) :
  ∀ acc : positive,
    fold_left (fun n c => 10 * n + (ord c - 48))
      (list_ascii_of_string (NilEmpty.string_of_uint d)) (Z.pos acc)
    = Z.pos (Pos.of_uint_acc d acc).
Proof.
  induction d; intros acc; cbn [NilEmpty.string_of_uint list_ascii_of_string
                                fold_left Pos.of_uint_acc]; [done|..];
    (etransitivity; [|apply IHd]); f_equal; vm_compute (ord _ - 48); lia.
Qed.

Lemma int_uint (d : Decimal.uint) :
  int (list_ascii_of_string (NilEmpty.string_of_uint d))
  = Z.of_N (Pos.of_uint d).
Proof.
  unfold int.
  induction d; cbn [NilEmpty.string_of_uint list_ascii_of_string fold_left
                    Pos.of_uint]; [done|exact IHd|..];
    (etransitivity; [|apply int_uint_acc]); f_equal.
Qed.

Lemma digits_uint (d : Decimal.uint) :
  forallb isdigit_char (list_ascii_of_string (NilEmpty.string_of_uint d))
  = true.
Proof. induction d; simpl; done. Qed.

Lemma str_of_natural (n : Z) :
  0 <= n →
  ∃ d, str n = list_ascii_of_string (NilEmpty.string_of_uint d) ∧
       d ≠ Decimal.Nil ∧ Z.of_N (Pos.of_uint d) = n.
Proof.
  intros Hn. destruct n as [|p|p]; [|clear Hn|lia].
  - by exists (Decimal.D0 Decimal.Nil).
  - exists (Pos.to_uint p). unfold str. cbn [Z.to_int NilZero.string_of_int].
    pose proof (DecimalPos.Unsigned.of_to p) as Hof.
    destruct (Pos.to_uint p) eqn:Hd; [done|..];
      (split; [reflexivity|split; [done|by rewrite Hof]]).
Qed.

Lemma int_str (n : Z) : 0 <= n → int (str n) = n.
Proof.
  intros Hn. destruct (str_of_natural n Hn) as (d & -> & _ & <-).
  apply int_uint.
Qed.

Lemma isdigit_str (n : Z) :
  0 <= n → isdigit (str n) = true ∧ forallb isdigit_char (str n) = true.
Proof.
  intros Hn. destruct (str_of_natural n Hn) as (d & -> & Hd & _).
  pose proof (digits_uint d) as Hall. split; [|done].
  unfold isdigit. by destruct d.
Qed.

Lemma forallb_not_space (s : pystr) :
  forallb isdigit_char s = true →
  forallb (fun c => negb (isspace c)) s = true.
Proof.
  induction s as [|c s IH]; [done|]. cbn [forallb]. intros H.
  apply andb_prop in H as [Hc Hs].
  by rewrite (digit_is_not_space c Hc), IH.
Qed.

Lemma runs_of_number (n : Z) :
  0 <= n → runs (fun c => negb (isspace c)) (str n) = [str n].
Proof.
  intros Hn. destruct (isdigit_str n Hn) as [Hd Hall].
  unfold runs. rewrite runs_go_all by by apply forallb_not_space.
  unfold isdigit in Hd. by destruct (str n).
Qed.

Lemma array_info_of_reply (a m : Z) :
  0 <= a → 0 <= m →
  array_info_of (lit "Arduino is ready " ++ str a ++ lit " " ++ str m)
  = [a; m].
Proof.
  intros Ha Hm. unfold array_info_of, split_whitespace.
  change (lit "Arduino is ready " ++ str a ++ lit " " ++ str m)
    with (lit "Arduino is ready" ++ " "%char :: (str a ++ " "%char :: str m)).
  rewrite !runs_break by done.
  rewrite !runs_of_number by done.
  change (runs _ (lit "Arduino is ready"))
    with [lit "Arduino"; lit "is"; lit "ready"].
  cbn [app]. rewrite !filter_cons, filter_nil.
  destruct (isdigit_str a Ha) as [-> _].
  destruct (isdigit_str m Hm) as [-> _].
  change (isdigit (lit "Arduino")) with false.
  change (isdigit (lit "is")) with false.
  change (isdigit (lit "ready")) with false.
  rewrite !decide_False, !decide_True by done.
  cbn [map]. by rewrite !int_str.
Qed.

(** X16. The handshake reads back the two numbers of a reply.  For the
    frame [<Arduino is ready A M>], where [A] and [M] are the decimal
    numerals of two integers [a >= 0] and [m >= 0], the port is reported
    READY and its row becomes [[address, serial, a, m]], whatever bytes
    follow the frame. *)
Theorem handshake_reads_numbers (address : pystr) (s : slot) (a m : Z)
    (rest : list byte) :
  0 <= a → 0 <= m →
  wait_for_arduino_connection address s
    (encode (lit "<" ++ (lit "Arduino is ready " ++ str a ++ lit " " ++ str m)
             ++ lit ">") ++ rest)
  = Some (false, READY, Connected (Device address s a m)).
Proof.
  intros Ha Hm.
  unfold wait_for_arduino_connection, wait_for_arduino_connection_execute.
  cbn [handshake_loop]. rewrite recieve_plain_frame.
  - change (find _ (lit "Arduino is ready")) with 0. cbn [Z.eqb].
    by rewrite array_info_of_reply.
  - apply Forall_app. split; [by repeat constructor|].
    apply Forall_app. split; [apply plain_str|].
    apply Forall_app. split; [by repeat constructor|apply plain_str].
Qed.

Lemma handshake_reads_numbers_witness :
  wait_for_arduino_connection (lit "/dev/ttyUSB0") (SerialObject 0)
    (encode (lit "<" ++ (lit "Arduino is ready " ++ str 3 ++ lit " " ++ str 10)
             ++ lit ">") ++ [x0d; x0a])
  = Some (false, READY,
          Connected (Device (lit "/dev/ttyUSB0") (SerialObject 0) 3 10)).
Proof.
  apply (handshake_reads_numbers (lit "/dev/ttyUSB0") (SerialObject 0) 3 10
           [x0d; x0a]).
  - lia.
  - lia.
Defined.

(** ** Opening the ports *)

Lemma open_ports_prefix (can_open : pystr → bool) (before tail : list pystr) :
  Forall (fun a => can_open a = true) before →
  match tail with [] => True | a :: _ => can_open a = false end →
  ∀ (handles : gset nat) (next : nat),
    ∃ handles',
      open_ports can_open (before ++ tail) handles next
      = (imap (fun i a => (a, SerialObject (next + i))) before, tail,
         handles', (next + length before)%nat) ∧
      ∀ h, h ∈ handles' ↔ h ∈ handles ∨ (next ≤ h < next + length before)%nat.
Proof.
  intros Hbefore Htail. induction Hbefore as [|a before Ha _ IH];
    intros handles next.
  - exists handles. split.
    + cbn [app imap length]. rewrite Nat.add_0_r.
      destruct tail as [|a tail]; [done|]. cbn [open_ports]. by rewrite Htail.
    + intros h. cbn [length]. split; [by left|]. intros [?|?]; [done|lia].
  - destruct (IH ({[next]} ∪ handles) (S next)) as (handles' & Hopen & Hin).
    exists handles'. split.
    + cbn [app open_ports]. rewrite Ha, Hopen. cbn [imap length].
      rewrite Nat.add_0_r.
      replace (next + S (length before))%nat
        with (S next + length before)%nat by lia.
      do 4 f_equal. apply imap_ext. intros i x _. cbn. do 2 f_equal. lia.
    + intros h. rewrite Hin. cbn [length].
      rewrite elem_of_union, elem_of_singleton. naive_solver lia.
Qed.

Lemma open_ports_split (can_open : pystr → bool)
    (addresses : list pystr) (handles : gset nat) (next : nat) :
  ∃ opened unreached handles',
    open_ports can_open addresses handles next
    = (opened, unreached, handles', (next + length opened)%nat) ∧
    map fst opened ++ unreached = addresses ∧
    Forall (fun a => can_open a = true) (map fst opened) ∧
    match unreached with [] => True | a :: _ => can_open a = false end ∧
    map snd opened = map SerialObject (seq next (length opened)) ∧
    ∀ h, h ∈ handles' ↔ h ∈ handles ∨ (next ≤ h < next + length opened)%nat.
Proof.
  revert handles next. induction addresses as [|a rest IH]; intros handles next.
  - exists [], [], handles. cbn [open_ports length map app seq].
    rewrite Nat.add_0_r. repeat split; [constructor|by left|].
    intros [?|?]; [done|lia].
  - cbn [open_ports]. destruct (can_open a) eqn:Ha.
    + destruct (IH ({[next]} ∪ handles) (S next))
        as (opened & unreached & handles' & -> & Happ & Hall & Hun & Hsnd & Hin).
      exists ((a, SerialObject next) :: opened), unreached, handles'.
      cbn [length map fst snd app seq]. rewrite Happ, Hsnd.
      replace (next + S (length opened))%nat
        with (S next + length opened)%nat by lia.
      split; [done|]. split; [done|].
      split; [by constructor|]. split; [done|]. split; [done|].
      intros h. rewrite Hin, elem_of_union, elem_of_singleton.
      naive_solver lia.
    + exists [], (a :: rest), handles. cbn [length map app seq].
      rewrite Nat.add_0_r. repeat split; [constructor|done|by left|].
      intros [?|?]; [done|lia].
Qed.

(** X17. [open_ports] stops at the first address it cannot open: the
    addresses before it are opened, in order, each with a serial object
    of its own that is now open; that address and the ones after it are
    left as they were; nothing else changes in the set of open serial
    objects. *)
Theorem open_ports_stops_at_first_failure (can_open : pystr → bool)
    (addresses : list pystr) (handles : gset nat) (next : nat) :
  ∃ opened unreached handles',
    open_ports can_open addresses handles next
    = (opened, unreached, handles', (next + length opened)%nat) ∧
    map fst opened ++ unreached = addresses ∧
    Forall (fun a => can_open a = true) (map fst opened) ∧
    match unreached with [] => True | a :: _ => can_open a = false end ∧
    map snd opened = map SerialObject (seq next (length opened)) ∧
    ∀ h, h ∈ handles' ↔ h ∈ handles ∨ (next ≤ h < next + length opened)%nat.
Proof. apply open_ports_split. Qed.

(** ** Closing, again *)

Lemma close_connection_again (row row' : port_row) (report : close_report) :
  close_connection row = Some (row', report) →
  close_connection row' = Some (row', FAILED).
Proof.
  destruct row as [a|a [h|h]|[a [h|h] n m]]; cbn [close_connection].
  - destruct (2 <=? length a)%nat eqn:Hlen; [|done].
    intros [= <- <-]. cbn [close_connection]. by rewrite Hlen.
  - by intros [= <- <-].
  - by intros [= <- <-].
  - by intros [= <- <-].
  - by intros [= <- <-].
Qed.

(** X18. [close_connections] called again on a table it has been through
    changes nothing and reports FAILED for every port: the rows hold the
    bound method [close], which has no [close] of its own.  The table
    keeps its length and every run reports once per row. *)
Theorem close_connections_again (rows rows' : list port_row)
    (reports : list close_report) :
  close_connections rows = Some (rows', reports) →
  close_connections rows' = Some (rows', replicate (length rows) FAILED) ∧
  length rows' = length rows ∧ length reports = length rows.
Proof.
  revert rows' reports.
  induction rows as [|row rows IH]; intros rows' reports Hclose.
  - injection Hclose as <- <-. done.
  - cbn [close_connections] in Hclose.
    destruct (close_connection row) as [[row1 report1]|] eqn:Hrow; [|done].
    cbn [mbind option_bind] in Hclose.
    destruct (close_connections rows) as [[rows1 reports1]|]; [|done].
    cbn [mbind option_bind] in Hclose. injection Hclose as <- <-.
    destruct (IH rows1 reports1 eq_refl) as (Hagain & Hlen1 & Hlen2).
    cbn [close_connections length replicate].
    rewrite (close_connection_again _ _ _ Hrow). cbn [mbind option_bind].
    rewrite Hagain. cbn [mbind option_bind]. split; [done|]. lia.
Qed.

Lemma close_connections_again_witness :
  close_connections
    [Opened (lit "/dev/ttyUSB0") (BoundClose 0); Address (lit "/dev/ttyUSB1")]
  = Some ([Opened (lit "/dev/ttyUSB0") (BoundClose 0);
           Address (lit "/dev/ttyUSB1")],
          replicate
            (length [Opened (lit "/dev/ttyUSB0") (SerialObject 0);
                     Address (lit "/dev/ttyUSB1")]) FAILED) ∧
  length [Opened (lit "/dev/ttyUSB0") (BoundClose 0);
          Address (lit "/dev/ttyUSB1")]
  = length [Opened (lit "/dev/ttyUSB0") (SerialObject 0);
            Address (lit "/dev/ttyUSB1")] ∧
  length [CLOSED; FAILED]
  = length [Opened (lit "/dev/ttyUSB0") (SerialObject 0);
            Address (lit "/dev/ttyUSB1")].
Proof.
  apply (close_connections_again
           [Opened (lit "/dev/ttyUSB0") (SerialObject 0);
            Address (lit "/dev/ttyUSB1")]
           [Opened (lit "/dev/ttyUSB0") (BoundClose 0);
            Address (lit "/dev/ttyUSB1")]
           [CLOSED; FAILED]).
  reflexivity.
Defined.

(** ** A connect attempt, end to end *)

Lemma close_connections_opened (before : list pystr) (tail : list port_row) :
  ∀ next : nat,
    close_connections
      (map (fun p => Opened p.1 p.2)
         (imap (fun i a => (a, SerialObject (next + i))) before) ++ tail)
    = '(rows, reports) ← close_connections tail;
      Some (imap (fun i a => Opened a (BoundClose (next + i))) before ++ rows,
            replicate (length before) CLOSED ++ reports).
Proof.
  induction before as [|a before IH]; intros next.
  - cbn [imap map app length replicate].
    by destruct (close_connections tail) as [[rows reports]|].
  - cbn [imap map app length replicate close_connections close_connection
         fst snd mbind option_bind].
    rewrite (imap_ext _ (fun i a => (a, SerialObject (S next + i))))
      by (intros i x _; cbn; do 2 f_equal; lia).
    rewrite IH. rewrite Nat.add_0_r.
    destruct (close_connections tail) as [[rows reports]|]; [|done].
    cbn [mbind option_bind]. do 4 f_equal.
    apply imap_ext. intros i x _. cbn. do 2 f_equal. lia.
Qed.

Lemma close_connections_addresses (addresses : list pystr) :
  Forall (fun a => (2 ≤ length a)%nat) addresses →
  close_connections (map Address addresses)
  = Some (map Address addresses, replicate (length addresses) FAILED).
Proof.
  induction 1 as [|a rest Ha _ IH]; [done|].
  cbn [map close_connections close_connection length replicate].
  destruct (Nat.leb_spec 2 (length a)); [|lia].
  cbn [mbind option_bind]. by rewrite IH.
Qed.

(** X19. When a port cannot be opened, the attempt ends in a retry.  The
    ports before it were opened and stay open, though each is reported
    CLOSED and its row now holds the bound method; the port that failed
    and the ones after it are still bare addresses and are reported
    FAILED. *)
Theorem unopened_port_ends_attempt (env : environment) (st : system)
    (before after : list pystr) (a : pystr) :
  found env = Some (before ++ a :: after) →
  Z.of_nat (length (before ++ a :: after)) <= MAX_NUMBER_OF_ARRAYS →
  Forall (fun x => openable env x = true) before →
  openable env a = false →
  Forall (fun x => (2 ≤ length x)%nat) (a :: after) →
  ∃ handles,
    connect_attempt env st
    = (Retry,
       System
         (imap (fun i x => Opened x (BoundClose (next_handle st + i))) before
          ++ map Address (a :: after))
         handles (next_handle st + length before),
       replicate (length before) CLOSED
       ++ replicate (S (length after)) FAILED) ∧
    ∀ h, h ∈ handles ↔
         h ∈ open_handles st
         ∨ (next_handle st ≤ h < next_handle st + length before)%nat.
Proof.
  intros Hfound Hmax Hbefore Ha Hlong.
  destruct (open_ports_prefix (openable env) before (a :: after) Hbefore Ha
              (open_handles st) (next_handle st)) as (handles & Hopen & Hin).
  exists handles. split; [|done].
  unfold connect_attempt. rewrite Hfound.
  destruct (Z.gtb_spec (Z.of_nat (length (before ++ a :: after)))
              MAX_NUMBER_OF_ARRAYS); [lia|].
  rewrite Hopen. unfold on_error.
  rewrite close_connections_opened, close_connections_addresses by done.
  cbn [mbind option_bind length].
  destruct before; reflexivity.
Qed.

Lemma unopened_port_ends_attempt_witness :
  ∃ handles,
    connect_attempt stuck_port_environment fresh_system
    = (Retry,
       System
         (imap (fun i x => Opened x (BoundClose (next_handle fresh_system + i)))
            [lit "/dev/ttyUSB0"]
          ++ map Address [lit "/dev/ttyUSB1"; lit "/dev/ttyUSB2"])
         handles (next_handle fresh_system + length [lit "/dev/ttyUSB0"]),
       replicate (length [lit "/dev/ttyUSB0"]) CLOSED
       ++ replicate (S (length [lit "/dev/ttyUSB2"])) FAILED) ∧
    ∀ h, h ∈ handles ↔
         h ∈ open_handles fresh_system
         ∨ (next_handle fresh_system ≤ h
            < next_handle fresh_system + length [lit "/dev/ttyUSB0"])%nat.
Proof.
  apply (unopened_port_ends_attempt stuck_port_environment fresh_system
           [lit "/dev/ttyUSB0"] [lit "/dev/ttyUSB2"] (lit "/dev/ttyUSB1")).
  - reflexivity.
  - vm_compute. discriminate.
  - repeat constructor.
  - reflexivity.
  - repeat constructor; simpl; lia.
Defined.

Lemma connection_threads_lookup (port_streams : nat → list byte)
    (opened : list (pystr * slot)) :
  ∀ (count i : nat),
    connection_threads port_streams count opened !! i
    = (fun p => wait_for_arduino_connection p.1 p.2
                (port_streams (count + i)%nat))
      <$> opened !! i.
Proof.
  induction opened as [|[a s] opened IH]; intros count i; [done|].
  cbn [connection_threads]. destruct i as [|i].
  - cbn. by rewrite Nat.add_0_r.
  - change ((?x :: ?l) !! S i) with (l !! i). rewrite IH.
    by replace (S count + i)%nat with (count + S i)%nat by lia.
Qed.

Lemma collect_results_ready (devices : list device) :
  collect_results (map (fun d => Some (false, READY, Connected d)) devices)
  = Ready devices.
Proof.
  induction devices as [|d devices IH]; [done|].
  cbn [map collect_results]. by rewrite IH.
Qed.

Lemma collect_results_error
    (results : list (option (bool * connection_report * port_row))) :
  ∀ (i : nat) (report : connection_report) (row : port_row)
    (devices : list device),
    results !! i = Some (Some (true, report, row)) →
    collect_results results ≠ Ready devices.
Proof.
  induction results as [|r results IH]; intros i report row devices Hi; [done|].
  destruct i as [|i].
  - injection Hi as ->. done.
  - cbn [lookup list_lookup] in Hi. cbn [collect_results].
    destruct r as [[[[] rep] [a|a s|d]]|]; try done.
    destruct (collect_results results) as [ds| |] eqn:Hrest; try done.
    by apply (IH i report row ds) in Hi.
Qed.

(** X20. A connect attempt succeeds when [ls] lists at most
    [MAX_NUMBER_OF_ARRAYS] ports, every port opens, every Arduino's first
    frame with the words [Arduino is ready] holds at least two numbers,
    and the numbers pass the validation: the command loop then gets one
    device per port, in the order of [ls], each with its own open serial
    object and the first two numbers of its reply, and nothing is closed
    or reported closed. *)
Theorem connect_attempt_ready (env : environment) (st : system)
    (addresses : list pystr) (devices : list device) :
  found env = Some addresses →
  Z.of_nat (length addresses) <= MAX_NUMBER_OF_ARRAYS →
  Forall (fun a => openable env a = true) addresses →
  length devices = length addresses →
  (∀ i a, addresses !! i = Some a →
     ∃ d more,
       devices !! i = Some d ∧ address d = a ∧
       serial d = SerialObject (next_handle st + i) ∧
       wait_for_arduino_connection_execute (streams env i)
       = ArrayInfo (array_number d :: motor_number d :: more)) →
  lint_serial_port_values devices = Linted →
  ∃ handles,
    connect_attempt env st
    = (Ready devices,
       System (map Connected devices) handles
         (next_handle st + length addresses),
       []) ∧
    ∀ h, h ∈ handles ↔
         h ∈ open_handles st
         ∨ (next_handle st ≤ h < next_handle st + length addresses)%nat.
Proof.
  intros Hfound Hmax Hopenable Hlen Hreply Hlint.
  destruct (open_ports_prefix (openable env) addresses [] Hopenable I
              (open_handles st) (next_handle st)) as (handles & Hopen & Hin).
  rewrite app_nil_r in Hopen.
  exists handles. split; [|done].
  unfold connect_attempt. rewrite Hfound.
  destruct (Z.gtb_spec (Z.of_nat (length addresses)) MAX_NUMBER_OF_ARRAYS);
    [lia|].
  rewrite Hopen.
  set (opened := imap (fun i a => (a, SerialObject (next_handle st + i)))
                   addresses).
  assert (connection_threads (streams env) 0 opened
          = map (fun d => Some (false, READY, Connected d)) devices) as ->.
  { apply list_eq. intros i.
    rewrite connection_threads_lookup, list_lookup_fmap. unfold opened.
    rewrite list_lookup_imap.
    destruct (addresses !! i) as [a|] eqn:Ha.
    - destruct (Hreply i a Ha) as (d & more & -> & Haddr & Hser & Hexec).
      cbn [fmap option_fmap option_map fst snd plus].
      unfold wait_for_arduino_connection. rewrite Hexec.
      cbn [lookup list_lookup]. destruct d as [a' s' n m].
      cbn in Haddr, Hser. by subst.
    - apply lookup_ge_None in Ha.
      rewrite (proj2 (lookup_ge_None devices i)) by lia. done. }
  rewrite collect_results_ready, Hlint.
  do 3 f_equal. apply list_eq. intros i.
  rewrite lookup_zip_with, !list_lookup_fmap.
  destruct (opened !! i) as [p|] eqn:Hp.
  - apply lookup_lt_Some in Hp as Hlt. unfold opened in Hlt.
    rewrite length_imap in Hlt.
    destruct (lookup_lt_is_Some_2 devices i) as [d ->]; [lia|]. done.
  - apply lookup_ge_None in Hp. unfold opened in Hp.
    rewrite length_imap in Hp.
    rewrite (proj2 (lookup_ge_None devices i)) by lia. done.
Qed.

Lemma connect_attempt_ready_witness :
  ∃ handles,
    connect_attempt two_port_environment fresh_system
    = (Ready two_devices,
       System (map Connected two_devices) handles
         (next_handle fresh_system
          + length [lit "/dev/ttyUSB0"; lit "/dev/ttyUSB1"]),
       []) ∧
    ∀ h, h ∈ handles ↔
         h ∈ open_handles fresh_system
         ∨ (next_handle fresh_system ≤ h
            < next_handle fresh_system
              + length [lit "/dev/ttyUSB0"; lit "/dev/ttyUSB1"])%nat.
Proof.
  apply (connect_attempt_ready two_port_environment fresh_system
           [lit "/dev/ttyUSB0"; lit "/dev/ttyUSB1"] two_devices).
  - reflexivity.
  - vm_compute. discriminate.
  - repeat constructor.
  - reflexivity.
  - intros [|[|i]] a Ha; [| |discriminate Ha].
    + injection Ha as <-. eexists _, []. repeat split.
    + injection Ha as <-. eexists _, []. repeat split.
  - vm_compute. reflexivity.
Defined.

(** X21. One failed handshake discards every port: when the handshake of
    some port times out, or its reply holds fewer than two numbers, the
    attempt hands no device to the command loop, whatever the other ports
    answered. *)
Theorem failed_handshake_discards_all (env : environment) (st : system)
    (addresses : list pystr) (i : nat) (devices : list device) :
  found env = Some addresses →
  (i < length addresses)%nat →
  wait_for_arduino_connection_execute (streams env i) = TimeoutError
  ∨ (∃ array_info,
       wait_for_arduino_connection_execute (streams env i)
       = ArrayInfo array_info ∧ (length array_info < 2)%nat) →
  (connect_attempt env st).1.1 ≠ Ready devices.
Proof.
  intros Hfound Hi Hfail. unfold connect_attempt. rewrite Hfound.
  destruct (Z.of_nat (length addresses) >? MAX_NUMBER_OF_ARRAYS);
    [apply on_error_is_not_ready|].
  destruct (open_ports_split (openable env) addresses
              (open_handles st) (next_handle st))
    as (opened & unreached & handles & -> & Happ & _).
  destruct unreached as [|u unreached]; [|apply on_error_is_not_ready].
  rewrite app_nil_r in Happ.
  assert (∃ report row,
            connection_threads (streams env) 0 opened !! i
            = Some (Some (true, report, row))) as (report & row & Hres).
  { rewrite connection_threads_lookup.
    destruct (lookup_lt_is_Some_2 opened i) as [[a s] ->].
    { rewrite <- (length_map fst), Happ. done. }
    cbn [fmap option_fmap option_map fst snd plus].
    unfold wait_for_arduino_connection.
    destruct Hfail as [->|(info & -> & Hshort)]; [by eexists _, _|].
    destruct info as [|n0 [|n1 more]]; [by eexists _, _..|].
    simpl in Hshort. lia. }
  pose proof (collect_results_error _ _ _ _ devices Hres) as Hnot.
  destruct (collect_results _) as [ds| |] eqn:Hcollect;
    [|apply on_error_is_not_ready|done].
  destruct (lint_serial_port_values ds); [|apply on_error_is_not_ready].
  cbn [fst]. intros [= ->]. by apply Hnot.
Qed.

Lemma failed_handshake_discards_all_witness :
  (connect_attempt silent_environment fresh_system).1.1 ≠ Ready [].
Proof.
  apply (failed_handshake_discards_all silent_environment fresh_system
           [lit "/dev/ttyUSB0"] 0 []).
  - reflexivity.
  - simpl. lia.
  - left. reflexivity.
Defined.

(** X22. Whatever a connect attempt meets, the devices it hands to the
    command loop have passed the validation: their array numbers are
    distinct rows of the grids and their motors are columns. *)
Theorem ready_devices_are_valid (env : environment) (st : system)
    (devices : list device) :
  (connect_attempt env st).1.1 = Ready devices →
  NoDup (map array_number devices) ∧ Forall connected_device devices.
Proof.
  intros Hready. apply lint_linted_iff.
  by apply (ready_only_when_linted env st).
Qed.

Lemma ready_devices_are_valid_witness :
  NoDup (map array_number two_devices) ∧ Forall connected_device two_devices.
Proof.
  apply (ready_devices_are_valid two_port_environment fresh_system two_devices).
  reflexivity.
Defined.

(** X23. When [ls] fails, or lists more than [MAX_NUMBER_OF_ARRAYS] ports,
    the attempt opens nothing: the set of open serial objects is the one
    before the attempt, no device reaches the command loop, and a table
    that was empty stays empty, with nothing reported. *)
Theorem enumeration_failure_opens_nothing (env : environment) (st : system) :
  found env = None
  ∨ (∃ addresses, found env = Some addresses ∧
                  MAX_NUMBER_OF_ARRAYS < Z.of_nat (length addresses)) →
  open_handles (connect_attempt env st).1.2 = open_handles st ∧
  next_handle (connect_attempt env st).1.2 = next_handle st ∧
  (∀ devices, (connect_attempt env st).1.1 ≠ Ready devices) ∧
  (serial_ports st = [] →
   connect_attempt env st
   = (Retry, System [] (open_handles st) (next_handle st), [])).
Proof.
  intros Hfail.
  assert (connect_attempt env st
          = on_error (serial_ports st) (open_handles st) (next_handle st))
    as ->.
  { unfold connect_attempt. destruct Hfail as [->|(l & -> & Hmany)]; [done|].
    by destruct (Z.gtb_spec (Z.of_nat (length l)) MAX_NUMBER_OF_ARRAYS);
      [|lia]. }
  split; [apply on_error_keeps_handles|]. split; [|split].
  - unfold on_error. destruct (serial_ports st) as [|row rows]; [done|].
    by destruct (close_connections (row :: rows)) as [[rows' reports]|].
  - intros devices. apply on_error_is_not_ready.
  - by intros ->.
Qed.

Lemma enumeration_failure_opens_nothing_witness :
  open_handles
    (connect_attempt (Environment None (fun _ => true) (fun _ => []))
       fresh_system).1.2
  = open_handles fresh_system ∧
  next_handle
    (connect_attempt (Environment None (fun _ => true) (fun _ => []))
       fresh_system).1.2
  = next_handle fresh_system ∧
  (∀ devices,
     (connect_attempt (Environment None (fun _ => true) (fun _ => []))
        fresh_system).1.1 ≠ Ready devices) ∧
  (serial_ports fresh_system = [] →
   connect_attempt (Environment None (fun _ => true) (fun _ => []))
     fresh_system
   = (Retry,
      System [] (open_handles fresh_system) (next_handle fresh_system), [])).
Proof.
  apply (enumeration_failure_opens_nothing
           (Environment None (fun _ => true) (fun _ => [])) fresh_system).
  left. reflexivity.
Defined.

(** ** When a worker times out *)

Lemma save_data_decodes (stream : list byte) :
  Forall ascii_byte stream →
  ∀ c acc, save_data stream c acc ≠ UnicodeDecodeError.
Proof.
  induction 1 as [|b stream Hb _ IH]; intros c acc.
  - simpl. by destruct (ord c =? END_MARKER).
  - cbn [save_data]. destruct (ord c =? END_MARKER); [done|].
    rewrite (decode_ascii_byte b Hb). apply IH.
Qed.

Lemma recieve_from_arduino_decodes (stream : list byte) :
  Forall ascii_byte stream → recieve_from_arduino stream ≠ UnicodeDecodeError.
Proof.
  induction 1 as [|b stream Hb Hrest IH]; [done|].
  cbn [recieve_from_arduino]. rewrite (decode_ascii_byte b Hb).
  destruct (ord (ascii_of_byte b) =? START_MARKER); [|done].
  by apply save_data_decodes.
Qed.

(** X14. On incoming bytes that are all below 128, a worker ends in the
    execution timeout exactly when those bytes hold no complete frame,
    that is, no start marker followed later by an end marker; otherwise it
    reports the reply.  What it wrote to the port does not depend on the
    reply. *)
Theorem worker_times_out_iff (parce_string : pystr) (incoming : list byte) :
  Forall ascii_byte incoming →
  ((move_arrays parce_string incoming).2 = EXECUTION_FAILED_TIMEOUT ↔
   ¬ ∃ noise payload rest,
       incoming = noise ++ [x3c] ++ payload ++ [x3e] ++ rest) ∧
  (move_arrays parce_string incoming).2 ≠ THREAD_DIED ∧
  (move_arrays parce_string incoming).1 = encode parce_string.
Proof.
  intros Hascii. cbn [move_arrays fst snd].
  pose proof (recieve_from_arduino_decodes incoming Hascii) as Hdec.
  split; [|split; [|done]].
  - destruct (recieve_from_arduino incoming) as [msg rest| |] eqn:Hrec;
      [|done|].
    + split; [done|]. intros Hnone. exfalso. apply Hnone.
      apply recieve_from_arduino_inv in Hrec
        as (noise & payload & -> & _). by exists noise, payload, rest.
    + split; [|done]. intros _ (noise & payload & rest & ->).
      (* cut the bytes at the first start marker and the first end marker
         after it *)
      assert (∃ junk tail, noise ++ [x3c] ++ payload ++ [x3e] ++ rest
                           = junk ++ x3c :: tail ∧ (x3c ∉ junk) ∧ x3e ∈ tail)
        as (junk & tail & Heq & Hjunk & Hend).
      { clear. induction noise as [|b noise IH].
        - exists [], (payload ++ [x3e] ++ rest).
          split; [done|]. split; [apply not_elem_of_nil|].
          rewrite !elem_of_app. right. left. by apply list_elem_of_singleton.
        - destruct (decide (b = x3c)) as [->|Hne].
          + exists [], (noise ++ [x3c] ++ payload ++ [x3e] ++ rest).
            split; [done|]. split; [apply not_elem_of_nil|].
            rewrite !elem_of_app. do 3 right. left.
            by apply list_elem_of_singleton.
          + destruct IH as (junk & tail & Heq & Hjunk & Hend).
            exists (b :: junk), tail.
            split; [cbn [app] in *; by rewrite Heq|].
            split; [|done]. apply not_elem_of_cons. split; [congruence|done]. }
      apply list_elem_of_split_l in Hend as (body & after & -> & Hbody).
      rewrite Heq in Hrec, Hascii.
      apply Forall_app in Hascii as [Hj Ht].
      apply Forall_cons in Ht as [_ Ht].
      apply Forall_app in Ht as [Hb _].
      rewrite skip_to_start, save_data_frame in Hrec by done. done.
  - by destruct (recieve_from_arduino incoming).
Qed.

Lemma worker_times_out_iff_witness :
  ((move_arrays (lit "<Up,1>") [x41; x3c; x6f]).2 = EXECUTION_FAILED_TIMEOUT ↔
   ¬ ∃ noise payload rest,
       [x41; x3c; x6f] = noise ++ [x3c] ++ payload ++ [x3e] ++ rest) ∧
  (move_arrays (lit "<Up,1>") [x41; x3c; x6f]).2 ≠ THREAD_DIED ∧
  (move_arrays (lit "<Up,1>") [x41; x3c; x6f]).1 = encode (lit "<Up,1>").
Proof.
  apply (worker_times_out_iff (lit "<Up,1>") [x41; x3c; x6f]).
  repeat constructor.
Defined.

(** ** How many devices the validation lets through *)

Lemma NoDup_bounded_length (l : list Z) (n : Z) :
  0 <= n →
  NoDup l → Forall (fun v => 0 <= v < n) l → Z.of_nat (length l) <= n.
Proof.
  intros Hn Hnd Hall.
  assert (l ⊆+ (Z.of_nat <$> seq 0 (Z.to_nat n))) as Hsub.
  { apply NoDup_submseteq; [done|]. intros v Hv.
    pose proof (proj1 (Forall_forall _ _) Hall v Hv) as Hrange.
    cbv beta in Hrange. apply list_elem_of_fmap. exists (Z.to_nat v). split; [lia|].
    apply elem_of_seq. lia. }
  apply submseteq_length in Hsub.
  rewrite length_fmap, length_seq in Hsub. lia.
Qed.

(** X11. A device list that passes the validation holds at most
    [MAX_NUMBER_OF_ARRAYS] devices, so a batch built for it starts at most
    that many workers. *)
Theorem linted_devices_bounded (devices : list device) (text : pystr) :
  lint_serial_port_values devices = Linted →
  Z.of_nat (length devices) <= MAX_NUMBER_OF_ARRAYS ∧
  Z.of_nat (length (started_workers (execute_commands devices text)))
  <= MAX_NUMBER_OF_ARRAYS.
Proof.
  intros Hlint. apply lint_linted_iff in Hlint as [Hnd Hall].
  assert (Z.of_nat (length devices) <= MAX_NUMBER_OF_ARRAYS) as Hlen.
  { rewrite <- (length_map array_number).
    apply NoDup_bounded_length; [done|done|].
    apply Forall_map. eapply Forall_impl; [exact Hall|]. by intros d [? _]. }
  split; [done|].
  unfold execute_commands. rewrite create_threads_started. cbn [app].
  rewrite length_imap, length_take. lia.
Qed.

Lemma linted_devices_bounded_witness :
  Z.of_nat (length two_devices) <= MAX_NUMBER_OF_ARRAYS ∧
  Z.of_nat
    (length (started_workers
               (execute_commands two_devices (lit "<Up,1>;<Up,1>;<Up,1>"))))
  <= MAX_NUMBER_OF_ARRAYS.
Proof.
  apply (linted_devices_bounded two_devices (lit "<Up,1>;<Up,1>;<Up,1>")).
  vm_compute. reflexivity.
Defined.

(** X3. After a lint every cell converts, to a number of turns between
    [0] and [MAX_TURNS], and the values form a position grid: the table is
    fit for [commands_from_csv], whatever the file held. *)
Theorem lint_csv_file_position_grid (pyint : pystr → option Z) (t : table) :
  pyint (lit "0") = Some 0 →
  ∃ g, table_values pyint (lint_csv_file pyint t) = Some g ∧
       position_grid g ∧
       Forall (Forall (fun v => 0 <= v <= MAX_TURNS)) g.
Proof. apply lint_csv_file_values. Qed.

Lemma lint_csv_file_position_grid_witness :
  ∃ g, table_values decimal_int
         (lint_csv_file decimal_int [[lit "3"; lit "x"; lit "12"]; []])
       = Some g ∧
       position_grid g ∧
       Forall (Forall (fun v => 0 <= v <= MAX_TURNS)) g.
Proof.
  apply (lint_csv_file_position_grid decimal_int
           [[lit "3"; lit "x"; lit "12"]; []]).
  reflexivity.
Defined.
